(** * jscom-python-common: token validation and pagination-token codec

    A shallow embedding of [jscom_common/auth/cognito.py] and of the
    pagination-token functions of [jscom_common/dynamodb/helpers.py],
    together with the properties of these functions.

    Python values that travel through JSON are the inductive type [json];
    Python [str] is [string], one [ascii] per character (code points below
    256); Python [bytes] is [list byte]; an exception is a value of [exn] and a
    call that may raise returns a [result].  The module-level cache
    [_jwks_cache] and the outbound requests live in an explicit [state] that
    every stateful function threads through. *)

From Stdlib Require Import ZArith NArith List String Ascii Bool Lia.
From Stdlib.Strings Require Import Byte.
From Stdlib Require Import Decimal DecimalString DecimalPos DecimalN DecimalZ.
From stdpp Require Import base strings gmap.

Import ListNotations.
Local Open Scope string_scope.
Local Open Scope list_scope.

(** ** Python values, exceptions and string operations *)
Module Py.

(** The exception classes that the two modules raise, catch or let through.
    [JWTError] stands for [jose.JWTError] and its subclasses,
    [RequestException] for [requests.RequestException] and its subclasses.
    [Unmodelled] is no Python exception: it marks a decoding that left the
    domain of this embedding (floats, characters above U+00FF), and
    [decode_pagination_token] passes it on as it is. *)
Inductive exn : Type :=
| UnauthorizedError (msg : string)
| ValueError (msg : string)
| JWTError (msg : string)
| RequestException (msg : string)
| KeyError (key : string)
| TypeError (msg : string)
| UnicodeDecodeError (msg : string)
| OtherError (msg : string)
| Unmodelled (what : string).

Inductive result (A : Type) : Type :=
| Ok (a : A)
| Raise (e : exn).
Arguments Ok {A} a.
Arguments Raise {A} e.

Definition bind {A B : Type} (r : result A) (k : A -> result B) : result B :=
  match r with
  | Ok a => k a
  | Raise e => Raise e
  end.

(** Values of the JSON data model as Python holds them: [None], [bool],
    [int], [str], [list] and [dict] with string keys, in insertion order.
    The induction principle that also covers the nested lists is [json_ind]
    below. *)
#[local] Unset Elimination Schemes.
Inductive json : Type :=
| JNull
| JBool (b : bool)
| JInt (z : Z)
| JStr (s : string)
| JArr (items : list json)
| JObj (members : list (string * json)).
#[local] Set Elimination Schemes.

(** Induction over [json], with the items of a list and the values of a
    dict as induction hypotheses. *)
Section JsonInd.
Variable P : json -> Prop.
Hypothesis Hnull : P JNull.
Hypothesis Hbool : forall b, P (JBool b).
Hypothesis Hint : forall z, P (JInt z).
Hypothesis Hstr : forall s, P (JStr s).
Hypothesis Harr : forall items, Forall P items -> P (JArr items).
Hypothesis Hobj :
  forall members, Forall (fun kv => P (snd kv)) members -> P (JObj members).

Fixpoint json_ind (j : json) : P j :=
  match j with
  | JNull => Hnull
  | JBool b => Hbool b
  | JInt z => Hint z
  | JStr s => Hstr s
  | JArr items =>
      Harr items
        ((fix all (l : list json) : Forall P l :=
            match l with
            | [] => @List.Forall_nil _ P
            | x :: l' => @List.Forall_cons _ P x l' (json_ind x) (all l')
            end) items)
  | JObj members =>
      Hobj members
        ((fix all (l : list (string * json))
            : Forall (fun kv => P (snd kv)) l :=
            match l with
            | [] => @List.Forall_nil _ _
            | kv :: l' =>
                @List.Forall_cons _ (fun kv => P (snd kv)) kv l'
                  (json_ind (snd kv)) (all l')
            end) members)
  end.
End JsonInd.

Definition dict : Type := list (string * json).

(** [d.get(k)]: the value stored under [k], if any. *)
Fixpoint dict_get {V : Type} (k : string) (d : list (string * V)) : option V :=
  match d with
  | [] => None
  | (k', v) :: d' => if String.eqb k k' then Some v else dict_get k d'
  end.

(** [d[k] = v]: overwrite in place, or append a new key at the end. *)
Fixpoint dict_set {V : Type} (k : string) (v : V) (d : list (string * V))
  : list (string * V) :=
  match d with
  | [] => [(k, v)]
  | (k', v') :: d' =>
      if String.eqb k k' then (k', v) :: d' else (k', v') :: dict_set k v d'
  end.

(** [dict(pairs)]: what [json.loads] builds from the members of an object. *)
Definition dict_of_pairs {V : Type} (pairs : list (string * V))
  : list (string * V) :=
  fold_left (fun d kv => dict_set (fst kv) (snd kv) d) pairs [].

(** A dict never holds a key twice, at any depth. *)
#[local] Unset Elimination Schemes.
Inductive wf_json : json -> Prop :=
| wf_null : wf_json JNull
| wf_bool b : wf_json (JBool b)
| wf_int z : wf_json (JInt z)
| wf_str s : wf_json (JStr s)
| wf_arr items : Forall wf_json items -> wf_json (JArr items)
| wf_obj members :
    NoDup (map fst members) ->
    Forall (fun kv => wf_json (snd kv)) members ->
    wf_json (JObj members).
#[local] Set Elimination Schemes.

(** Truthiness: [bool(x)]. *)
Definition truthy (j : json) : bool :=
  match j with
  | JNull => false
  | JBool b => b
  | JInt z => negb (Z.eqb z 0)
  | JStr s => negb (String.eqb s "")
  | JArr items => match items with [] => false | _ => true end
  | JObj members => match members with [] => false | _ => true end
  end.

(** [a == b].  [bool] is a subclass of [int], so [True == 1]; lists compare
    element by element; dicts compare as mappings, whatever the order. *)
Fixpoint py_eq (a b : json) : bool :=
  match a with
  | JNull => match b with JNull => true | _ => false end
  | JBool x =>
      match b with
      | JBool y => Bool.eqb x y
      | JInt y => Z.eqb (Z.b2z x) y
      | _ => false
      end
  | JInt x =>
      match b with
      | JBool y => Z.eqb x (Z.b2z y)
      | JInt y => Z.eqb x y
      | _ => false
      end
  | JStr x => match b with JStr y => String.eqb x y | _ => false end
  | JArr l =>
      match b with
      | JArr l' =>
          (fix go (l : list json) (l' : list json) : bool :=
             match l, l' with
             | [], [] => true
             | x :: t, y :: t' => py_eq x y && go t t'
             | _, _ => false
             end) l l'
      | _ => false
      end
  | JObj d =>
      match b with
      | JObj d' =>
          Nat.eqb (length d) (length d') &&
          (fix go (d : list (string * json)) : bool :=
             match d with
             | [] => true
             | kv :: t =>
                 match dict_get (fst kv) d' with
                 | Some v' => py_eq (snd kv) v'
                 | None => false
                 end && go t
             end) d
      | _ => false
      end
  end.

(** [str.isspace] on one character: the Unicode white space below U+0100. *)
Definition is_space (c : ascii) : bool :=
  let n := N_of_ascii c in
  ((9 <=? n) && (n <=? 13) || (28 <=? n) && (n <=? 32)
   || (n =? 133) || (n =? 160))%N.

(** [s.split()]: the maximal runs of characters that are not white space.
    [cur] is the run being read. *)
Fixpoint split_from (cur : string) (s : string) : list string :=
  match s with
  | EmptyString => if String.eqb cur "" then [] else [cur]
  | String c s' =>
      if is_space c
      then (if String.eqb cur "" then split_from "" s'
            else cur :: split_from "" s')
      else split_from (cur ++ String c "") s'
  end.

Definition split (s : string) : list string := split_from "" s.

(** [str.lower] on one character below U+0100: ASCII and Latin-1 capitals. *)
Definition lower_char (c : ascii) : ascii :=
  let n := N_of_ascii c in
  if ((65 <=? n) && (n <=? 90)
      || (192 <=? n) && (n <=? 222) && negb (n =? 215))%N
  then ascii_of_N (n + 32)
  else c.

Fixpoint lower (s : string) : string :=
  match s with
  | EmptyString => EmptyString
  | String c s' => String (lower_char c) (lower s')
  end.

(** [x or y] where [x] is [None] or a [str] and [y] a [str]. *)
Definition or_default (x : option string) (y : string) : string :=
  match x with
  | Some s => if String.eqb s "" then y else s
  | None => y
  end.

(** [x or y] where both are [None] or a [str]. *)
Definition or_else (x y : option string) : option string :=
  match x with
  | Some s => if String.eqb s "" then y else Some s
  | None => y
  end.

(** [not x] for [x] that is [None] or a [str]. *)
Definition is_falsy (x : option string) : bool :=
  match x with
  | Some s => String.eqb s ""
  | None => true
  end.

(** [j[k]] for a string [k]. *)
Definition subscript (j : json) (k : string) : result json :=
  match j with
  | JObj d =>
      match dict_get k d with
      | Some v => Ok v
      | None => Raise (KeyError k)
      end
  | JArr _ => Raise (TypeError "list indices must be integers or slices, not str")
  | JStr _ => Raise (TypeError "string indices must be integers, not 'str'")
  | _ => Raise (TypeError "object is not subscriptable")
  end.

(** The elements [for x in j] visits: the items of a list, the keys of a
    dict, the characters of a string. *)
Definition iterate (j : json) : result (list json) :=
  match j with
  | JArr items => Ok items
  | JObj d => Ok (map (fun kv => JStr (fst kv)) d)
  | JStr s => Ok (map (fun c => JStr (String c "")) (list_ascii_of_string s))
  | _ => Raise (TypeError "object is not iterable")
  end.

(** No character of [s] is white space: [s] is empty or one word of
    [s.split()]. *)
Fixpoint no_space (s : string) : bool :=
  match s with
  | EmptyString => true
  | String c s' => negb (is_space c) && no_space s'
  end.

(** [s] is made of white space only. *)
Fixpoint all_space (s : string) : bool :=
  match s with
  | EmptyString => true
  | String c s' => is_space c && all_space s'
  end.

End Py.

(** ** The [json] module: [json.dumps] and [json.loads]

    With the default arguments the helpers use: separators [", "] and
    [": "], [ensure_ascii=True], strict decoding.  Numbers with a fraction or
    an exponent are Python floats and characters above U+00FF do not fit
    [ascii]: the decoder answers [Unmodelled] for them.  Limits of the
    interpreter (recursion depth, digits of an integer) are not modelled. *)
Module Json.
Import Py.
Local Open Scope string_scope.

Definition dquote : ascii := "034"%char.
Definition backslash : ascii := "092"%char.

(** One lower-case hexadecimal digit. *)
Definition hex_digit (n : N) : ascii :=
  if (n <? 10)%N then ascii_of_N (48 + n) else ascii_of_N (87 + n).

(** [ESCAPE_ASCII]: everything but the printable ASCII characters is
    escaped, and so are the quote and the backslash. *)
Definition escape_char (c : ascii) : string :=
  let n := N_of_ascii c in
  if (n =? 34)%N then String backslash (String dquote "")
  else if (n =? 92)%N then String backslash (String backslash "")
  else if (n =? 10)%N then "\n"
  else if (n =? 13)%N then "\r"
  else if (n =? 9)%N then "\t"
  else if (n =? 8)%N then "\b"
  else if (n =? 12)%N then "\f"
  else if ((32 <=? n) && (n <=? 126))%N then String c ""
  else "\u00" ++ String (hex_digit (n / 16)) (String (hex_digit (n mod 16)) "").

Fixpoint escape (s : string) : string :=
  match s with
  | EmptyString => ""
  | String c s' => escape_char c ++ escape s'
  end.

(** [encode_basestring_ascii(s)]: the escaped text between quotes. *)
Definition encode_basestring_ascii (s : string) : string :=
  String dquote (escape s ++ String dquote "").

(** [int.__repr__]. *)
Definition int_repr (z : Z) : string := NilEmpty.string_of_int (Z.to_int z).

(** [sep.join(l)]. *)
Fixpoint join (sep : string) (l : list string) : string :=
  match l with
  | [] => ""
  | x :: l' =>
      match l' with
      | [] => x
      | _ :: _ => x ++ sep ++ join sep l'
      end
  end.

(** [json.dumps(j)]. *)
Fixpoint dumps (j : json) : string :=
  match j with
  | JNull => "null"
  | JBool true => "true"
  | JBool false => "false"
  | JInt z => int_repr z
  | JStr s => encode_basestring_ascii s
  | JArr items => "[" ++ join ", " (map dumps items) ++ "]"
  | JObj members =>
      "{" ++
      join ", "
        (map (fun kv =>
                encode_basestring_ascii (fst kv) ++ ": " ++ dumps (snd kv))
             members)
      ++ "}"
  end.

(** *** Decoding *)

Definition is_ws (c : ascii) : bool :=
  let n := N_of_ascii c in
  ((n =? 32) || (n =? 9) || (n =? 10) || (n =? 13))%N.

Fixpoint skip_ws (s : string) : string :=
  match s with
  | EmptyString => ""
  | String c s' => if is_ws c then skip_ws s' else s
  end.

(** [s] without the prefix [p], when it starts with it. *)
Fixpoint strip_prefix (p s : string) : option string :=
  match p with
  | EmptyString => Some s
  | String c p' =>
      match s with
      | EmptyString => None
      | String c' s' => if Ascii.eqb c c' then strip_prefix p' s' else None
      end
  end.

Definition hex_value (c : ascii) : option N :=
  let n := N_of_ascii c in
  if ((48 <=? n) && (n <=? 57))%N then Some (n - 48)%N
  else if ((97 <=? n) && (n <=? 102))%N then Some (n - 87)%N
  else if ((65 <=? n) && (n <=? 70))%N then Some (n - 55)%N
  else None.

(** The code point of the four hexadecimal digits of a [\uXXXX] escape. *)
Definition hex4 (a b c d : ascii) : option N :=
  match hex_value a, hex_value b, hex_value c, hex_value d with
  | Some x, Some y, Some z, Some t => Some (((x * 16 + y) * 16 + z) * 16 + t)%N
  | _, _, _, _ => None
  end.

(** The character a one-letter escape stands for. *)
Definition unescape (c : ascii) : option ascii :=
  let n := N_of_ascii c in
  if (n =? 34)%N then Some dquote
  else if (n =? 92)%N then Some backslash
  else if (n =? 47)%N then Some "/"%char
  else if (n =? 98)%N then Some "008"%char
  else if (n =? 102)%N then Some "012"%char
  else if (n =? 110)%N then Some "010"%char
  else if (n =? 114)%N then Some "013"%char
  else if (n =? 116)%N then Some "009"%char
  else None.

Definition prepend (c : ascii) (r : result (string * string))
  : result (string * string) :=
  match r with
  | Ok (s, rest) => Ok (String c s, rest)
  | Raise e => Raise e
  end.

(** [scanstring]: the text after an opening quote, up to the closing one. *)
Fixpoint scanstring (s : string) : result (string * string) :=
  match s with
  | EmptyString => Raise (ValueError "Unterminated string starting at")
  | String c s' =>
      if Ascii.eqb c dquote then Ok ("", s')
      else if Ascii.eqb c backslash then
        match s' with
        | EmptyString => Raise (ValueError "Unterminated string starting at")
        | String e s'' =>
            if Ascii.eqb e "u" then
              match s'' with
              | String h1 (String h2 (String h3 (String h4 rest))) =>
                  match hex4 h1 h2 h3 h4 with
                  | Some n =>
                      if (n <? 256)%N then prepend (ascii_of_N n) (scanstring rest)
                      else Raise (Unmodelled "character above U+00FF")
                  | None => Raise (ValueError "Invalid \uXXXX escape")
                  end
              | _ => Raise (ValueError "Invalid \uXXXX escape")
              end
            else
              match unescape e with
              | Some c' => prepend c' (scanstring s'')
              | None => Raise (ValueError "Invalid \escape")
              end
        end
      else if (N_of_ascii c <? 32)%N then
        Raise (ValueError "Invalid control character at")
      else prepend c (scanstring s')
  end.

Definition digit_of_char (c : ascii) : option (uint -> uint) :=
  let n := N_of_ascii c in
  if (n =? 48)%N then Some D0
  else if (n =? 49)%N then Some D1
  else if (n =? 50)%N then Some D2
  else if (n =? 51)%N then Some D3
  else if (n =? 52)%N then Some D4
  else if (n =? 53)%N then Some D5
  else if (n =? 54)%N then Some D6
  else if (n =? 55)%N then Some D7
  else if (n =? 56)%N then Some D8
  else if (n =? 57)%N then Some D9
  else None.

Definition is_digit (c : ascii) : bool :=
  match digit_of_char c with Some _ => true | None => false end.

(** The longest run of digits at the start of [s], and what follows. *)
Fixpoint scan_digits (s : string) : uint * string :=
  match s with
  | EmptyString => (Nil, "")
  | String c s' =>
      match digit_of_char c with
      | Some f => let (d, r) := scan_digits s' in (f d, r)
      | None => (Nil, s)
      end
  end.

(** The integer part of a number: a lone [0], or digits that do not start
    with [0]. *)
Definition scan_int_part (s : string) : option (uint * string) :=
  match s with
  | EmptyString => None
  | String c s' =>
      if Ascii.eqb c "0" then Some (D0 Nil, s')
      else if is_digit c then Some (scan_digits s)
      else None
  end.

Definition starts_with_digit (s : string) : bool :=
  match s with
  | EmptyString => false
  | String c _ => is_digit c
  end.

(** A fraction follows: a dot and at least one digit. *)
Definition has_frac (s : string) : bool :=
  match s with
  | String c s' => Ascii.eqb c "." && starts_with_digit s'
  | EmptyString => false
  end.

Definition skip_frac (s : string) : string :=
  match s with
  | String c s' => if has_frac s then snd (scan_digits s') else s
  | EmptyString => s
  end.

(** An exponent follows: [e] or [E], an optional sign, at least one digit. *)
Definition has_exp (s : string) : bool :=
  match s with
  | String c s' =>
      (Ascii.eqb c "e" || Ascii.eqb c "E") &&
      match s' with
      | String sg s'' =>
          if Ascii.eqb sg "+" || Ascii.eqb sg "-" then starts_with_digit s''
          else starts_with_digit s'
      | EmptyString => false
      end
  | EmptyString => false
  end.

(** [_match_number]: an integer literal; a float literal is outside the
    model. *)
Definition match_number (s : string) : result (json * string) :=
  let (negative, s1) :=
    match s with
    | String c s' => if Ascii.eqb c "-" then (true, s') else (false, s)
    | EmptyString => (false, s)
    end in
  match scan_int_part s1 with
  | None => Raise (ValueError "Expecting value")
  | Some (d, r) =>
      if has_frac r || has_exp (skip_frac r) then Raise (Unmodelled "float")
      else Ok (JInt (Z.of_int (if negative then Neg d else Pos d)), r)
  end.

(** The constants and numbers: what [scan_once] tries after strings,
    objects and arrays. *)
Definition scan_atom (s : string) : result (json * string) :=
  match strip_prefix "null" s with
  | Some r => Ok (JNull, r)
  | None =>
  match strip_prefix "true" s with
  | Some r => Ok (JBool true, r)
  | None =>
  match strip_prefix "false" s with
  | Some r => Ok (JBool false, r)
  | None =>
  match strip_prefix "NaN" s, strip_prefix "Infinity" s,
        strip_prefix "-Infinity" s with
  | None, None, None => match_number s
  | _, _, _ => Raise (Unmodelled "float")
  end end end end.

(** [scan_once] with [JSONObject] and [JSONArray].  Every call uses up one
    unit of [fuel]; two calls in a row read at least one character, so
    [loads] gives twice the length of the text and one more. *)
Fixpoint scan_once (fuel : nat) (s : string) : result (json * string) :=
  match fuel with
  | O => Raise (Unmodelled "fuel")
  | S fuel' =>
      match s with
      | EmptyString => Raise (ValueError "Expecting value")
      | String c s' =>
          if Ascii.eqb c dquote then
            bind (scanstring s') (fun kr => Ok (JStr (fst kr), snd kr))
          else if Ascii.eqb c "{" then
            match skip_ws s' with
            | String c1 r1 =>
                if Ascii.eqb c1 "}" then Ok (JObj [], r1)
                else
                  bind (scan_members fuel' (String c1 r1)) (fun pr =>
                    Ok (JObj (dict_of_pairs (fst pr)), snd pr))
            | EmptyString =>
                Raise (ValueError
                  "Expecting property name enclosed in double quotes")
            end
          else if Ascii.eqb c "[" then
            match skip_ws s' with
            | String c1 r1 =>
                if Ascii.eqb c1 "]" then Ok (JArr [], r1)
                else
                  bind (scan_items fuel' (String c1 r1)) (fun vr =>
                    Ok (JArr (fst vr), snd vr))
            | EmptyString => Raise (ValueError "Expecting value")
            end
          else scan_atom s
      end
  end
with scan_items (fuel : nat) (s : string) : result (list json * string) :=
  match fuel with
  | O => Raise (Unmodelled "fuel")
  | S fuel' =>
      bind (scan_once fuel' s) (fun vr =>
        match skip_ws (snd vr) with
        | String c r =>
            if Ascii.eqb c "]" then Ok ([fst vr], r)
            else if Ascii.eqb c "," then
              bind (scan_items fuel' (skip_ws r)) (fun vs =>
                Ok (fst vr :: fst vs, snd vs))
            else Raise (ValueError "Expecting ',' delimiter")
        | EmptyString => Raise (ValueError "Expecting ',' delimiter")
        end)
  end
with scan_members (fuel : nat) (s : string)
  : result (list (string * json) * string) :=
  match fuel with
  | O => Raise (Unmodelled "fuel")
  | S fuel' =>
      match s with
      | String c s' =>
          if Ascii.eqb c dquote then
            bind (scanstring s') (fun kr =>
              match skip_ws (snd kr) with
              | String c1 r1 =>
                  if Ascii.eqb c1 ":" then
                    bind (scan_once fuel' (skip_ws r1)) (fun vr =>
                      match skip_ws (snd vr) with
                      | String c2 r2 =>
                          if Ascii.eqb c2 "}" then
                            Ok ([(fst kr, fst vr)], r2)
                          else if Ascii.eqb c2 "," then
                            bind (scan_members fuel' (skip_ws r2)) (fun ms =>
                              Ok ((fst kr, fst vr) :: fst ms, snd ms))
                          else Raise (ValueError "Expecting ',' delimiter")
                      | EmptyString =>
                          Raise (ValueError "Expecting ',' delimiter")
                      end)
                  else Raise (ValueError "Expecting ':' delimiter")
              | EmptyString => Raise (ValueError "Expecting ':' delimiter")
              end)
          else
            Raise (ValueError
              "Expecting property name enclosed in double quotes")
      | EmptyString =>
          Raise (ValueError
            "Expecting property name enclosed in double quotes")
      end
  end.

(** What may follow a value inside a document: the end, a comma, a closing
    bracket or a closing brace. *)
Definition delimited (rest : string) : bool :=
  match rest with
  | EmptyString => true
  | String c _ => Ascii.eqb c "," || Ascii.eqb c "]" || Ascii.eqb c "}"
  end.

(** A character that can start the text of a value or of a member. *)
Definition value_start (c : ascii) : bool :=
  negb (is_ws c) && negb (Ascii.eqb c "]") && negb (Ascii.eqb c "}").

(** The fuel [scan_once] uses on the text of [j]. *)
Fixpoint cost (j : json) : nat :=
  match j with
  | JArr items => S (list_sum (map (fun x => S (cost x)) items))
  | JObj members =>
      S (list_sum (map (fun kv => S (cost (snd kv))) members))
  | _ => 1
  end.

(** [json.loads(s)]: one value, white space around it, nothing else. *)
Definition loads (s : string) : result json :=
  bind (scan_once (S (2 * String.length s)) (skip_ws s)) (fun vr =>
    match skip_ws (snd vr) with
    | EmptyString => Ok (fst vr)
    | String _ _ => Raise (ValueError "Extra data")
    end).

(** The text of one member of an object. *)
Definition member_text (kv : string * json) : string :=
  encode_basestring_ascii (fst kv) ++ ": " ++ dumps (snd kv).

(** A digit other than [0]. *)
Definition nonzero_digit (c : ascii) : bool :=
  is_digit c && negb (Ascii.eqb c "0").

(** [scan_once] reads [j] back from its text, whatever delimiter
    follows. *)
Definition reads_back (j : json) : Prop :=
  forall fuel rest,
    (cost j <= fuel)%nat -> delimited rest = true ->
    scan_once fuel (dumps j ++ rest) = Ok (j, rest).

End Json.

(** ** [str.encode], [bytes.decode] and the [base64] module *)
Module Codec.
Import Py.

Definition N_of_byte (b : byte) : N := N_of_ascii (ascii_of_byte b).

(** The low eight bits of [n] as a byte. *)
Definition byte_of_N (n : N) : byte := byte_of_ascii (ascii_of_N n).

(** [s.encode("utf-8")]: one byte below U+0080, two bytes up to U+00FF. *)
Fixpoint utf8_encode (s : string) : list byte :=
  match s with
  | EmptyString => []
  | String c s' =>
      let n := N_of_ascii c in
      if (n <? 128)%N then byte_of_N n :: utf8_encode s'
      else byte_of_N (N.lor 192 (N.shiftr n 6))
           :: byte_of_N (N.lor 128 (N.land n 63))
           :: utf8_encode s'
  end.

Definition push (c : ascii) (r : result string) : result string :=
  match r with
  | Ok s => Ok (String c s)
  | Raise e => Raise e
  end.

(** [bs.decode("utf-8")].  A lead byte from 0xC4 to 0xF4 starts a character
    above U+00FF or an invalid sequence: [Unmodelled] either way. *)
Fixpoint utf8_decode (bs : list byte) : result string :=
  match bs with
  | [] => Ok EmptyString
  | b :: r =>
      let n := N_of_byte b in
      if (n <? 128)%N then push (ascii_of_N n) (utf8_decode r)
      else if (n <? 194)%N then
        Raise (UnicodeDecodeError "invalid start byte")
      else if (n <? 196)%N then
        match r with
        | [] => Raise (UnicodeDecodeError "unexpected end of data")
        | b2 :: r' =>
            let n2 := N_of_byte b2 in
            if ((128 <=? n2) && (n2 <? 192))%N then
              push (ascii_of_N (N.lor (N.shiftl (N.land n 31) 6) (N.land n2 63)))
                   (utf8_decode r')
            else Raise (UnicodeDecodeError "invalid continuation byte")
        end
      else if (n <? 245)%N then Raise (Unmodelled "character above U+00FF")
      else Raise (UnicodeDecodeError "invalid start byte")
  end.

(** [table_b2a_base64]: the character of a six-bit value. *)
Definition b2a (v : N) : byte :=
  byte_of_N
    (if (v <? 26)%N then 65 + v
     else if (v <? 52)%N then 71 + v
     else if (v <? 62)%N then v - 4
     else if (v =? 62)%N then 43
     else 47)%N.

(** [table_a2b_base64]: the six-bit value of a character of the alphabet. *)
Definition a2b (b : byte) : option N :=
  let n := N_of_byte b in
  if ((65 <=? n) && (n <=? 90))%N then Some (n - 65)%N
  else if ((97 <=? n) && (n <=? 122))%N then Some (n - 71)%N
  else if ((48 <=? n) && (n <=? 57))%N then Some (n + 4)%N
  else if (n =? 43)%N then Some 62%N
  else if (n =? 47)%N then Some 63%N
  else None.

Definition pad : byte := "="%byte.

(** [base64.b64encode(bs)]: three bytes become four characters, and the
    last group is padded. *)
Fixpoint b64encode (bs : list byte) : list byte :=
  match bs with
  | [] => []
  | x :: r1 =>
      let a := N_of_byte x in
      match r1 with
      | [] =>
          [b2a (N.shiftr a 2); b2a (N.shiftl (N.land a 3) 4); pad; pad]
      | y :: r2 =>
          let b := N_of_byte y in
          match r2 with
          | [] =>
              [b2a (N.shiftr a 2);
               b2a (N.lor (N.shiftl (N.land a 3) 4) (N.shiftr b 4));
               b2a (N.shiftl (N.land b 15) 2); pad]
          | z :: r3 =>
              let c := N_of_byte z in
              b2a (N.shiftr a 2)
              :: b2a (N.lor (N.shiftl (N.land a 3) 4) (N.shiftr b 4))
              :: b2a (N.lor (N.shiftl (N.land b 15) 2) (N.shiftr c 6))
              :: b2a (N.land c 63)
              :: b64encode r3
          end
      end
  end.

Definition emit (b : byte) (r : result (list byte)) : result (list byte) :=
  match r with
  | Ok l => Ok (b :: l)
  | Raise e => Raise e
  end.

(** The loop of [binascii.a2b_base64] without [strict_mode]: [quad_pos]
    counts the characters of the current group, [leftchar] holds the bits not
    yet written, [pads] the padding characters seen in a row.  Characters
    outside the alphabet are skipped; padding that completes a group ends the
    input. *)
Fixpoint a2b_base64 (s : list byte) (quad_pos : nat) (leftchar : N)
    (pads : nat) : result (list byte) :=
  match s with
  | [] =>
      match quad_pos with
      | 0 => Ok []
      | 1 =>
          Raise (ValueError
            "Invalid base64-encoded string: number of data characters cannot be 1 more than a multiple of 4")
      | _ => Raise (ValueError "Incorrect padding")
      end
  | ch :: s' =>
      if Byte.eqb ch pad then
        if ((2 <=? quad_pos) && (4 <=? quad_pos + S pads))%nat then Ok []
        else
          a2b_base64 s' quad_pos leftchar
            (if (2 <=? quad_pos)%nat then S pads else pads)
      else
        match a2b ch with
        | None => a2b_base64 s' quad_pos leftchar pads
        | Some v =>
            match quad_pos with
            | 0 => a2b_base64 s' 1 v 0
            | 1 =>
                emit (byte_of_N (N.lor (N.shiftl leftchar 2) (N.shiftr v 4)))
                     (a2b_base64 s' 2 (N.land v 15) 0)
            | 2 =>
                emit (byte_of_N (N.lor (N.shiftl leftchar 4) (N.shiftr v 2)))
                     (a2b_base64 s' 3 (N.land v 3) 0)
            | _ =>
                emit (byte_of_N (N.lor (N.shiftl leftchar 6) v))
                     (a2b_base64 s' 0 0 0)
            end
        end
  end.

(** [base64.b64decode(s)]. *)
Definition b64decode (s : list byte) : result (list byte) :=
  a2b_base64 s 0 0 0.

(** The four six-bit values that [b64encode] takes from three bytes. *)
Definition sextet0 (a : N) : N := N.shiftr a 2.
Definition sextet1 (a b : N) : N :=
  N.lor (N.shiftl (N.land a 3) 4) (N.shiftr b 4).
Definition sextet2 (b c : N) : N :=
  N.lor (N.shiftl (N.land b 15) 2) (N.shiftr c 6).
Definition sextet3 (c : N) : N := N.land c 63.

(** A character of the base64 alphabet. *)
Definition in_alphabet (c : ascii) : bool :=
  match a2b (byte_of_ascii c) with
  | Some _ => true
  | None => false
  end.

(** A character the decoder reads: one of the alphabet, or the padding
    character. *)
Definition is_b64_char (c : ascii) : bool :=
  in_alphabet c || Ascii.eqb c "=".

(** [s] without the characters the decoder skips. *)
Fixpoint significant (s : string) : string :=
  match s with
  | EmptyString => EmptyString
  | String c s' =>
      if is_b64_char c then String c (significant s') else significant s'
  end.

End Codec.

(** ** jscom_common/dynamodb/helpers.py *)
Module Helpers.
Import Py.
Local Open Scope string_scope.

(** [str(e)] for the exceptions the decoder can meet. *)
Definition exn_text (e : exn) : string :=
  match e with
  | UnauthorizedError m | ValueError m | JWTError m | RequestException m
  | TypeError m | UnicodeDecodeError m | OtherError m | Unmodelled m => m
  | KeyError k => k
  end.

(** [encode_pagination_token(last_key)]. *)
Definition encode_pagination_token (last_key : json) : result string :=
  let json_str := Json.dumps last_key in
  let encoded := Codec.b64encode (Codec.utf8_encode json_str) in
  Codec.utf8_decode encoded.

(** [decode_pagination_token(token)].  [except Exception] turns every
    failure into a [ValueError]; a run outside the model stays
    [Unmodelled]. *)
Definition decode_pagination_token (token : string) : result json :=
  match
    bind (Codec.b64decode (Codec.utf8_encode token)) (fun decoded =>
    bind (Codec.utf8_decode decoded) (fun text =>
    Json.loads text))
  with
  | Ok result => Ok result
  | Raise (Unmodelled what) => Raise (Unmodelled what)
  | Raise e => Raise (ValueError ("Invalid pagination token: " ++ exn_text e))
  end.

End Helpers.

(** ** jscom_common/auth/cognito.py *)
Module Cognito.
Import Py.
Local Open Scope string_scope.

(** What [requests.get] hands back: whether [raise_for_status] raises, and
    what [json()] returns or raises. *)
Record response : Type := {
  raise_for_status : option exn;
  response_json : result json
}.

(** The collaborators the module calls but does not define: the process
    environment, the HTTP client and the JOSE library.  [requests_get n url
    timeout] is the outcome of the request sent after [n] earlier ones, so the
    network may answer differently each time. *)
Record world : Type := {
  environ : gmap string string;
  requests_get : nat -> string -> Z -> result response;
  get_unverified_header : string -> result dict;
  jwt_decode : string -> json -> list string -> string -> string -> result dict
}.

(** The process state: the module global [_jwks_cache] ([JNull] is [None])
    and the URLs requested so far, oldest first. *)
Record state : Type := {
  jwks_cache : json;
  requests_sent : list string
}.

(** The API Gateway event: [headers] is [None] when the event has no
    ["headers"] entry. *)
Record event : Type := {
  headers : option (gmap string string)
}.

(** Computations that read and update the state and may raise. *)
Definition M (A : Type) : Type := state -> result A * state.

Definition ret {A : Type} (a : A) : M A := fun st => (Ok a, st).

Definition raise {A : Type} (e : exn) : M A := fun st => (Raise e, st).

Definition mbind {A B : Type} (c : M A) (k : A -> M B) : M B :=
  fun st =>
    match c st with
    | (Ok a, st') => k a st'
    | (Raise e, st') => (Raise e, st')
    end.

Definition lift {A : Type} (r : result A) : M A := fun st => (r, st).

(** [try: body except ...: handler]. *)
Definition try_except {A : Type} (body : M A) (handler : exn -> M A) : M A :=
  fun st =>
    match body st with
    | (Ok a, st') => (Ok a, st')
    | (Raise e, st') => handler e st'
    end.

Declare Scope py_scope.
Delimit Scope py_scope with py.
Notation "'do' x <- c ; k" := (mbind c (fun x => k))
  (at level 10, x name, c at level 100, k at level 200) : py_scope.
Notation "'run' c ; k" := (mbind c (fun _ => k))
  (at level 10, c at level 100, k at level 200) : py_scope.
Local Open Scope py_scope.

Definition read_cache : M json := fun st => (Ok (jwks_cache st), st).

Definition write_cache (j : json) : M unit :=
  fun st => (Ok tt, {| jwks_cache := j; requests_sent := requests_sent st |}).

Definition msg_user_pool_id_required : string :=
  "COGNITO_USER_POOL_ID environment variable or user_pool_id parameter is required".

Definition msg_app_client_id_required : string :=
  "COGNITO_APP_CLIENT_ID environment variable or app_client_id parameter is required".

Definition msg_missing_header : string := "Missing Authorization header".
Definition msg_malformed_header : string := "Invalid Authorization header format".
Definition msg_invalid_token : string := "Invalid token".
Definition msg_invalid_or_expired : string := "Invalid or expired token".
Definition msg_validation_failed : string := "Token validation failed".

Definition jwks_url (region user_pool_id : string) : string :=
  "https://cognito-idp." ++ region ++ ".amazonaws.com/" ++ user_pool_id
  ++ "/.well-known/jwks.json".

Definition issuer_url (region user_pool_id : string) : string :=
  "https://cognito-idp." ++ region ++ ".amazonaws.com/" ++ user_pool_id.

Section Collaborators.
Variable w : world.

(** [os.environ.get(name, default)]. *)
Definition environ_get (name default : string) : string :=
  match environ w !! name with
  | Some v => v
  | None => default
  end.

(** [requests.get(url, timeout=timeout)], recorded in the state. *)
Definition http_get (url : string) (timeout : Z) : M response :=
  fun st =>
    (requests_get w (length (requests_sent st)) url timeout,
     {| jwks_cache := jwks_cache st;
        requests_sent := requests_sent st ++ [url] |}).

(** [response.raise_for_status()]. *)
Definition check_status (r : response) : M unit :=
  match raise_for_status r with
  | Some e => raise e
  | None => ret tt
  end.

(** [get_jwks(region, user_pool_id)]. *)
Definition get_jwks (region user_pool_id : option string) : M json :=
  do cache <- read_cache;
  match cache with
  | JNull =>
      let cognito_region :=
        or_default region (environ_get "COGNITO_REGION" "us-west-2") in
      let cognito_user_pool_id :=
        or_default user_pool_id (environ_get "COGNITO_USER_POOL_ID" "") in
      if String.eqb cognito_user_pool_id "" then
        raise (ValueError msg_user_pool_id_required)
      else
        do resp <- http_get (jwks_url cognito_region cognito_user_pool_id) 10;
        run check_status resp;
        do body <- lift (response_json resp);
        run write_cache body;
        read_cache
  | _ => ret cache
  end.

(** The loop over [jwks["keys"]]: the first entry whose ["kid"] equals
    [kid], or [None] when the loop ends without a [break]. *)
Fixpoint scan_keys (keys : list json) (kid : json) : result json :=
  match keys with
  | [] => Ok JNull
  | jwk_key :: rest =>
      bind (subscript jwk_key "kid") (fun k =>
        if py_eq k kid then Ok jwk_key else scan_keys rest kid)
  end.

(** The entries the loop visits: [jwks["keys"]], iterated. *)
Definition key_list (jwks : json) : result (list json) :=
  bind (subscript jwks "keys") iterate.

(** The [except] clauses of [validate_jwt_token], in order. *)
Definition reclassify {A : Type} (e : exn) : M A :=
  match e with
  | UnauthorizedError _ => raise e
  | JWTError _ => raise (UnauthorizedError msg_invalid_or_expired)
  | _ => raise (UnauthorizedError msg_validation_failed)
  end.

(** [event.get("headers", {}).get(name)]. *)
Definition header_value (ev : event) (name : string) : option string :=
  match headers ev with
  | Some hs => hs !! name
  | None => None
  end.

(** The header looked up by [validate_jwt_token]. *)
Definition find_auth_header (ev : event) : option string :=
  or_else (header_value ev "authorization") (header_value ev "Authorization").

(** The body of the [try] block of [validate_jwt_token]. *)
Definition checked_claims (token cognito_region cognito_user_pool_id
    cognito_app_client_id : string) : M dict :=
  do jwks <- get_jwks (Some cognito_region) (Some cognito_user_pool_id);
  do unverified_header <- lift (get_unverified_header w token);
  let kid := default JNull (dict_get "kid" unverified_header) in
  do keys <- lift (key_list jwks);
  do key <- lift (scan_keys keys kid);
  if negb (truthy key) then
    raise (UnauthorizedError msg_invalid_token)
  else
    do claims_result <-
      lift (jwt_decode w token key ["RS256"] cognito_app_client_id
              (issuer_url cognito_region cognito_user_pool_id));
    ret claims_result.

(** [validate_jwt_token(event, region, user_pool_id, app_client_id)].
    The calls to the logger are left out. *)
Definition validate_jwt_token (ev : event)
    (region user_pool_id app_client_id : option string) : M dict :=
  let auth_header := find_auth_header ev in
  if is_falsy auth_header then
    raise (UnauthorizedError msg_missing_header)
  else
  let parts := split (default "" auth_header) in
  match parts with
  | [scheme; token] =>
    if negb (String.eqb (lower scheme) "bearer") then
      raise (UnauthorizedError msg_malformed_header)
    else
    let cognito_region :=
      or_default region (environ_get "COGNITO_REGION" "us-west-2") in
    let cognito_user_pool_id :=
      or_default user_pool_id (environ_get "COGNITO_USER_POOL_ID" "") in
    let cognito_app_client_id :=
      or_default app_client_id (environ_get "COGNITO_APP_CLIENT_ID" "") in
    if String.eqb cognito_user_pool_id "" then
      raise (ValueError msg_user_pool_id_required)
    else if String.eqb cognito_app_client_id "" then
      raise (ValueError msg_app_client_id_required)
    else
      try_except
        (checked_claims token cognito_region cognito_user_pool_id
           cognito_app_client_id)
        reclassify
  | _ => raise (UnauthorizedError msg_malformed_header)
  end.

(** The configuration a call works with: the argument when it is truthy,
    the environment otherwise. *)
Definition effective_region (region : option string) : string :=
  or_default region (environ_get "COGNITO_REGION" "us-west-2").

Definition effective_user_pool_id (user_pool_id : option string) : string :=
  or_default user_pool_id (environ_get "COGNITO_USER_POOL_ID" "").

Definition effective_app_client_id (app_client_id : option string) : string :=
  or_default app_client_id (environ_get "COGNITO_APP_CLIENT_ID" "").

(** The token of a header value made of two parts, the first of which is
    [bearer] in any case. *)
Definition bearer_token (auth_header : string) : option string :=
  match split auth_header with
  | [scheme; token] =>
      if String.eqb (lower scheme) "bearer" then Some token else None
  | _ => None
  end.

(** The call passes the header and configuration checks and enters the
    [try] block with [token] and the configuration [r], [p], [a]. *)
Definition reaches_try (ev : event)
    (region user_pool_id app_client_id : option string)
    (token r p a : string) : Prop :=
  (exists h, find_auth_header ev = Some h /\ h <> "" /\
             bearer_token h = Some token) /\
  r = effective_region region /\
  p = effective_user_pool_id user_pool_id /\
  a = effective_app_client_id app_client_id /\
  p <> "" /\ a <> "".

(** The key id the token's header names ([None] when it names none). *)
Definition token_kid (token : string) : result json :=
  bind (get_unverified_header w token) (fun unverified_header =>
    Ok (default JNull (dict_get "kid" unverified_header))).

(** A sequence of resolver calls, run one after the other; a call that
    raises leaves the state as it was when it raised and the sequence goes
    on. *)
Fixpoint run_get_jwks (calls : list (option string * option string))
    (st : state) : list (result json) * state :=
  match calls with
  | [] => ([], st)
  | (region, user_pool_id) :: rest =>
      let (r, st') := get_jwks region user_pool_id st in
      let (rs, st'') := run_get_jwks rest st' in
      (r :: rs, st'')
  end.

End Collaborators.

(** An entry of the key list carries a key id. *)
Definition has_kid (jwk_key : json) : Prop :=
  exists v, subscript jwk_key "kid" = Ok v.

(** The entry's key id equals [kid], as [==] decides. *)
Definition kid_matches (kid jwk_key : json) : Prop :=
  exists v, subscript jwk_key "kid" = Ok v /\ py_eq v kid = true.

(** The entry carries a key id other than [kid]. *)
Definition kid_differs (kid jwk_key : json) : Prop :=
  exists v, subscript jwk_key "kid" = Ok v /\ py_eq v kid = false.

(** The key set could not be retrieved: [requests.get] raised, or the
    status was an error and [raise_for_status] raised. *)
Definition transport_error (w : world) (n : nat) (url : string) (e : exn)
  : Prop :=
  (exists m, e = RequestException m) /\
  (requests_get w n url 10 = Raise e \/
   exists resp, requests_get w n url 10 = Ok resp /\
                raise_for_status resp = Some e).

(** The collaborators are libraries that know nothing of the verifier's
    own exception class: none of them raises [UnauthorizedError]. *)
Definition raises_no_auth_error (w : world) : Prop :=
  (forall n url t m, requests_get w n url t <> Raise (UnauthorizedError m)) /\
  (forall n url t resp m,
     requests_get w n url t = Ok resp ->
     raise_for_status resp <> Some (UnauthorizedError m) /\
     response_json resp <> Raise (UnauthorizedError m)) /\
  (forall token m,
     get_unverified_header w token <> Raise (UnauthorizedError m)) /\
  (forall token key algorithms audience issuer m,
     jwt_decode w token key algorithms audience issuer
     <> Raise (UnauthorizedError m)).

(** A header value that [validate_jwt_token] takes [token] from: white
    space or nothing, a word that lower-cases to [bearer], white space, the
    token as one word, white space or nothing. *)
Definition bearer_shape (auth_header token : string) : Prop :=
  exists pre scheme sep post,
    auth_header = pre ++ scheme ++ sep ++ token ++ post
    /\ all_space pre = true
    /\ lower scheme = "bearer"
    /\ all_space sep = true /\ sep <> ""
    /\ no_space token = true /\ token <> ""
    /\ all_space post = true.

End Cognito.

(** ** Concrete collaborators, after the mocks of the test suite *)
Module Examples.
Import Py Cognito.
Local Open Scope string_scope.

Definition test_key : json :=
  JObj [("kid", JStr "test-kid"); ("kty", JStr "RSA");
        ("n", JStr "test-n"); ("e", JStr "AQAB")].

Definition test_jwks : json := JObj [("keys", JArr [test_key])].

Definition test_claims : dict :=
  [("cognito:username", JStr "testuser"); ("sub", JStr "user-123");
   ("email", JStr "test@example.com")].

(** The key set is served, every token names [test-kid], and only
    [valid-token-123] verifies. *)
Definition test_world : world := {|
  environ := ∅;
  requests_get := fun _ _ _ =>
    Ok {| raise_for_status := None; response_json := Ok test_jwks |};
  get_unverified_header := fun _ => Ok [("kid", JStr "test-kid")];
  jwt_decode := fun token _ _ _ _ =>
    if String.eqb token "valid-token-123" then Ok test_claims
    else Raise (JWTError "Token expired")
|}.

(** The same, with the identity provider out of reach. *)
Definition offline_world : world := {|
  environ := ∅;
  requests_get := fun _ _ _ => Raise (RequestException "connection refused");
  get_unverified_header := get_unverified_header test_world;
  jwt_decode := jwt_decode test_world
|}.

(** The same, after a key rotation: the key set no longer holds the key
    the tokens name. *)
Definition rotated_jwks : json :=
  JObj [("keys", JArr [JObj [("kid", JStr "different-kid");
                             ("kty", JStr "RSA")]])].

Definition rotated_world : world := {|
  environ := ∅;
  requests_get := fun _ _ _ =>
    Ok {| raise_for_status := None; response_json := Ok rotated_jwks |};
  get_unverified_header := get_unverified_header test_world;
  jwt_decode := jwt_decode test_world
|}.


(** A fresh process: nothing cached, nothing requested. *)
Definition fresh : state := {| jwks_cache := JNull; requests_sent := [] |}.

(** A process whose cache holds [test_jwks]. *)
Definition warm : state :=
  {| jwks_cache := test_jwks;
     requests_sent := [jwks_url "us-west-2" "test-pool-id"] |}.

Definition event_of (name value : string) : event :=
  {| headers := Some {[ name := value ]} |}.

End Examples.

(** * Properties *)

(** ** The key set resolver *)
Module ResolverFacts.
Import Py Cognito.
Local Open Scope string_scope.

Lemma eqb_empty_false (s : string) : s <> "" -> String.eqb s "" = false.
Proof. intros H. now apply String.eqb_neq. Qed.

Lemma or_default_explicit (x d : string) : x <> "" -> or_default (Some x) d = x.
Proof. intros H. unfold or_default. now rewrite eqb_empty_false. Qed.

Lemma or_default_idem (x : option string) (d : string) :
  or_default (Some (or_default x d)) d = or_default x d.
Proof.
  unfold or_default. destruct x as [s|].
  - destruct (String.eqb s "") eqn:E.
    + now destruct (String.eqb d "").
    + now rewrite E.
  - now destruct (String.eqb d "").
Qed.

Section Resolver.
Variable w : world.

(** A populated cache answers the call: no request, no look at the
    arguments. *)
Lemma get_jwks_cached (region user_pool_id : option string) (st : state) :
  jwks_cache st <> JNull ->
  get_jwks w region user_pool_id st = (Ok (jwks_cache st), st).
Proof.
  intros Hc. unfold get_jwks, mbind, read_cache.
  destruct (jwks_cache st) eqn:E; try reflexivity. now contradiction Hc.
Qed.

(** With an empty cache and no user pool id the call raises before any
    request is sent. *)
Lemma get_jwks_unconfigured (region user_pool_id : option string) (st : state) :
  jwks_cache st = JNull ->
  or_default user_pool_id (environ_get w "COGNITO_USER_POOL_ID" "") = "" ->
  get_jwks w region user_pool_id st
  = (Raise (ValueError msg_user_pool_id_required), st).
Proof.
  intros Hc Hp. unfold get_jwks, mbind, read_cache. rewrite Hc, Hp.
  reflexivity.
Qed.

(** The state after a call: the cache and the log only grow. *)
Lemma get_jwks_requests (region user_pool_id : option string) (st st' : state)
    (r : result json) :
  get_jwks w region user_pool_id st = (r, st') ->
  requests_sent st' = requests_sent st
  \/ exists url, requests_sent st' = (requests_sent st ++ [url])%list.
Proof.
  unfold get_jwks, mbind, read_cache, http_get, check_status, lift,
    write_cache, raise, ret.
  destruct (jwks_cache st) eqn:Hc;
    try (intros [= <- <-]; now left).
  destruct (String.eqb _ "").
  - intros [= <- <-]. now left.
  - destruct (requests_get w _ _ _) as [resp|e]; cbn.
    + destruct (raise_for_status resp); cbn.
      * intros [= <- <-]. right. now eexists.
      * destruct (response_json resp); cbn; intros [= <- <-]; right;
          now eexists.
    + intros [= <- <-]. right. now eexists.
Qed.

(** A call that returns a value other than [None] leaves it in the cache. *)
Lemma get_jwks_populates (region user_pool_id : option string)
    (st st' : state) (j : json) :
  get_jwks w region user_pool_id st = (Ok j, st') ->
  j <> JNull -> jwks_cache st' = j.
Proof.
  unfold get_jwks, mbind, read_cache, http_get, check_status, lift,
    write_cache, raise, ret.
  destruct (jwks_cache st) eqn:Hc;
    try (intros [= <- <-] _; exact Hc).
  destruct (String.eqb _ ""); [discriminate|].
  destruct (requests_get w _ _ _) as [resp|e]; cbn; [|discriminate].
  destruct (raise_for_status resp); cbn; [discriminate|].
  destruct (response_json resp); cbn; [|discriminate].
  intros [= <- <-] _. reflexivity.
Qed.

(** Once the cache is populated a sequence of calls changes nothing and
    every call returns the cached value. *)
Lemma run_get_jwks_cached (calls : list (option string * option string))
    (st : state) :
  jwks_cache st <> JNull ->
  run_get_jwks w calls st
  = (repeat (Ok (jwks_cache st)) (length calls), st).
Proof.
  intros Hc.
  induction calls as [|[region user_pool_id] calls IH];
    cbn [run_get_jwks length repeat].
  - reflexivity.
  - rewrite get_jwks_cached by exact Hc. now rewrite IH.
Qed.

End Resolver.
End ResolverFacts.

(** ** The token verifier *)
Module VerifierFacts.
Import Py Cognito ResolverFacts.
Local Open Scope string_scope.

(** The scan returns the first entry that matches. *)
Lemma scan_keys_first (kid k : json) (before after : list json) :
  Forall (kid_differs kid) before ->
  kid_matches kid k ->
  scan_keys (before ++ k :: after)%list kid = Ok k.
Proof.
  intros Hb [v [Hv Heq]]. induction Hb as [|x before [u [Hu Hne]] _ IH]; cbn.
  - now rewrite Hv; cbn; rewrite Heq.
  - now rewrite Hu; cbn; rewrite Hne.
Qed.

(** The scan of a list without a match ends with [None]. *)
Lemma scan_keys_none (kid : json) (keys : list json) :
  Forall (kid_differs kid) keys -> scan_keys keys kid = Ok JNull.
Proof.
  induction 1 as [|x keys [u [Hu Hne]] _ IH]; cbn.
  - reflexivity.
  - now rewrite Hu; cbn; rewrite Hne.
Qed.

(** When key ids are unique the scan returns the entry that matches,
    wherever it stands. *)
Lemma scan_keys_unique (kid k : json) (keys : list json) :
  Forall has_kid keys ->
  In k keys ->
  kid_matches kid k ->
  (forall k', In k' keys -> kid_matches kid k' -> k' = k) ->
  scan_keys keys kid = Ok k.
Proof.
  intros Hall Hin [v [Hv Heq]] Huniq.
  induction Hall as [|x keys [u Hu] _ IH]; [contradiction|].
  cbn. rewrite Hu; cbn. destruct (py_eq u kid) eqn:E.
  - f_equal. apply Huniq; [now left|]. now exists u.
  - destruct Hin as [->|Hin]; [congruence|].
    apply IH; [exact Hin|]. intros k' Hk'. apply Huniq. now right.
Qed.

(** An entry that carries a key id is a non-empty dict, hence truthy. *)
Lemma has_kid_truthy (k : json) : has_kid k -> truthy k = true.
Proof.
  intros [v Hv]. destruct k as [| | | | |members]; try discriminate.
  now destruct members.
Qed.

Section Verifier.
Variable w : world.


Lemma validate_malformed_header (ev : event)
    (region user_pool_id app_client_id : option string) (st : state)
    (h : string) :
  find_auth_header ev = Some h -> h <> "" ->
  bearer_token h = None ->
  validate_jwt_token w ev region user_pool_id app_client_id st
  = (Raise (UnauthorizedError msg_malformed_header), st).
Proof.
  intros Hh Hne Hb. unfold validate_jwt_token. rewrite Hh. cbn [is_falsy].
  rewrite (eqb_empty_false h Hne). cbn [default from_option id]. unfold bearer_token in Hb.
  destruct (split h) as [|scheme [|token [|x parts]]]; try reflexivity.
  destruct (String.eqb (lower scheme) "bearer"); [discriminate|reflexivity].
Qed.

(** Past the header and configuration checks the call is the [try] block
    under the [except] clauses. *)
Lemma validate_enters_try (ev : event)
    (region user_pool_id app_client_id : option string)
    (token r p a : string) (st : state) :
  reaches_try w ev region user_pool_id app_client_id token r p a ->
  validate_jwt_token w ev region user_pool_id app_client_id st
  = try_except (checked_claims w token r p a) reclassify st.
Proof.
  intros [[h [Hh [Hne Hb]]] [-> [-> [-> [Hp Ha]]]]].
  unfold validate_jwt_token. rewrite Hh. cbn [is_falsy].
  rewrite (eqb_empty_false h Hne). cbn [default from_option id]. unfold bearer_token in Hb.
  destruct (split h) as [|scheme [|tok [|x parts]]]; try discriminate.
  destruct (String.eqb (lower scheme) "bearer"); [|discriminate].
  injection Hb as ->. cbn [negb].
  unfold effective_user_pool_id in Hp. unfold effective_app_client_id in Ha.
  rewrite (eqb_empty_false _ Hp), (eqb_empty_false _ Ha). reflexivity.
Qed.

(** The [try] block up to the call of [jwt.decode]. *)
Lemma checked_claims_decodes (token r p a : string) (st st' : state)
    (jwks kid key : json) (keys : list json) :
  get_jwks w (Some r) (Some p) st = (Ok jwks, st') ->
  token_kid w token = Ok kid ->
  key_list jwks = Ok keys ->
  scan_keys keys kid = Ok key ->
  truthy key = true ->
  checked_claims w token r p a st
  = (jwt_decode w token key ["RS256"] a (issuer_url r p), st').
Proof.
  intros Hj Hk Hl Hs Ht. unfold checked_claims, mbind. rewrite Hj.
  unfold token_kid in Hk. unfold lift at 1.
  destruct (get_unverified_header w token) as [hdr|e]; [|discriminate].
  cbn in Hk. injection Hk as Hk. rewrite Hk. unfold lift at 1. rewrite Hl.
  unfold lift at 1. rewrite Hs. rewrite Ht. cbn [negb].
  unfold lift, ret. now destruct (jwt_decode w _ _ _ _ _).
Qed.

(** The [try] block when the scan finds no key. *)
Lemma checked_claims_no_key (token r p a : string) (st st' : state)
    (jwks kid : json) (keys : list json) :
  get_jwks w (Some r) (Some p) st = (Ok jwks, st') ->
  token_kid w token = Ok kid ->
  key_list jwks = Ok keys ->
  scan_keys keys kid = Ok JNull ->
  checked_claims w token r p a st
  = (Raise (UnauthorizedError msg_invalid_token), st').
Proof.
  intros Hj Hk Hl Hs. unfold checked_claims, mbind. rewrite Hj.
  unfold token_kid in Hk. unfold lift at 1.
  destruct (get_unverified_header w token) as [hdr|e]; [|discriminate].
  cbn in Hk. injection Hk as Hk. rewrite Hk. unfold lift at 1. rewrite Hl.
  unfold lift at 1. rewrite Hs. reflexivity.
Qed.

(** The [try] block when the resolver raises. *)
Lemma checked_claims_resolver_raises (token r p a : string) (st st' : state)
    (e : exn) :
  get_jwks w (Some r) (Some p) st = (Raise e, st') ->
  checked_claims w token r p a st = (Raise e, st').
Proof. intros Hj. unfold checked_claims, mbind. now rewrite Hj. Qed.

(** What comes out of the [except] clauses is an [UnauthorizedError],
    whatever went in. *)
Lemma reclassify_unauthorized {A : Type} (e : exn) (st : state) :
  exists m, @reclassify A e st = (Raise (UnauthorizedError m), st).
Proof. destruct e; cbn; eauto. Qed.


(** Indexing and iterating raise [KeyError] or [TypeError] only. *)
Lemma subscript_no_auth_error (j : json) (k m : string) :
  subscript j k <> Raise (UnauthorizedError m).
Proof.
  destruct j as [| | | | |d]; try discriminate.
  cbn. now destruct (dict_get k d).
Qed.

Lemma key_list_no_auth_error (jwks : json) (m : string) :
  key_list jwks <> Raise (UnauthorizedError m).
Proof.
  unfold key_list. destruct (subscript jwks "keys") as [v|e] eqn:E; cbn.
  - now destruct v.
  - intros [= ->]. now apply subscript_no_auth_error in E.
Qed.

Lemma scan_keys_no_auth_error (keys : list json) (kid : json) (m : string) :
  scan_keys keys kid <> Raise (UnauthorizedError m).
Proof.
  induction keys as [|x keys IH]; cbn; [discriminate|].
  destruct (subscript x "kid") as [v|e] eqn:E; cbn.
  - now destruct (py_eq v kid).
  - intros [= ->]. now apply subscript_no_auth_error in E.
Qed.

Lemma get_jwks_no_auth_error (region user_pool_id : option string)
    (st st' : state) (m : string) :
  raises_no_auth_error w ->
  get_jwks w region user_pool_id st <> (Raise (UnauthorizedError m), st').
Proof.
  intros (Hget & Hresp & _).
  unfold get_jwks, mbind, read_cache, http_get, check_status, lift,
    write_cache, raise, ret.
  destruct (jwks_cache st); try discriminate.
  destruct (String.eqb _ ""); [discriminate|].
  destruct (requests_get w _ _ _) as [resp|e] eqn:E; cbn.
  - destruct (Hresp _ _ _ _ m E) as [Hs Hb].
    destruct (raise_for_status resp) as [e|]; cbn.
    + intros [= -> _]. now apply Hs.
    + destruct (response_json resp) as [b|e]; cbn; [discriminate|].
      intros [= -> _]. now apply Hb.
  - intros [= -> _]. now apply (Hget _ _ _ m) in E.
Qed.

(** With such collaborators the only [UnauthorizedError] that leaves the
    [try] block is the one for a key that was not found. *)
Lemma checked_claims_auth_error (token r p a : string) (st st' : state)
    (m : string) :
  raises_no_auth_error w ->
  checked_claims w token r p a st = (Raise (UnauthorizedError m), st') ->
  m = msg_invalid_token.
Proof.
  intros Hw. pose proof Hw as (_ & _ & Hhdr & Hdec).
  unfold checked_claims, mbind.
  destruct (get_jwks w _ _ st) as [[jwks|e] st1] eqn:Ej.
  2:{ intros [= -> ->]. now apply get_jwks_no_auth_error in Ej. }
  unfold lift at 1.
  destruct (get_unverified_header w token) as [hdr|e] eqn:Eh.
  2:{ intros [= -> _]. now apply Hhdr in Eh. }
  unfold lift at 1. destruct (key_list jwks) as [keys|e] eqn:El.
  2:{ intros [= -> _]. now apply key_list_no_auth_error in El. }
  unfold lift at 1. destruct (scan_keys keys _) as [key|e] eqn:Es.
  2:{ intros [= -> _]. now apply scan_keys_no_auth_error in Es. }
  destruct (negb (truthy key)).
  - now intros [= <- _].
  - unfold lift, ret.
    destruct (jwt_decode w _ _ _ _ _) as [c|e] eqn:Ed; [discriminate|].
    intros [= -> _]. now apply Hdec in Ed.
Qed.


End Verifier.
End VerifierFacts.

(** ** The claims about [get_jwks] and [validate_jwt_token] *)
Module CognitoClaims.
Import Py Cognito Examples ResolverFacts VerifierFacts.
Local Open Scope string_scope.

(** With an empty cache and a user pool id, a transport error leaves the
    resolver as it came from the HTTP client. *)
Lemma get_jwks_transport_error (w : world) (region : option string)
    (p : string) (st : state) (e : exn) :
  jwks_cache st = JNull -> p <> "" ->
  transport_error w (length (requests_sent st))
    (jwks_url (effective_region w region) p) e ->
  get_jwks w region (Some p) st
  = (Raise e,
     {| jwks_cache := JNull;
        requests_sent :=
          (requests_sent st ++ [jwks_url (effective_region w region) p])%list |}).
Proof.
  intros Hc Hp [_ Ht]. unfold get_jwks, mbind, read_cache. rewrite Hc.
  rewrite (or_default_explicit p _ Hp), (eqb_empty_false p Hp).
  fold (effective_region w region). unfold http_get. rewrite Hc.
  destruct Ht as [-> | [resp [-> Hs]]]; [reflexivity|].
  unfold check_status. now rewrite Hs.
Qed.

(** C1, the claim as stated fails: with the identity provider out of
    reach the resolver raises the transport error, and
    [validate_jwt_token] raises [UnauthorizedError] in its place. *)
Lemma fetch_error_does_not_propagate :
  let call := validate_jwt_token offline_world
                (event_of "Authorization" "Bearer valid-token-123")
                (Some "us-west-2") (Some "test-pool") (Some "test-client") in
  fst (get_jwks offline_world (Some "us-west-2") (Some "test-pool") fresh)
  = Raise (RequestException "connection refused")
  /\ fst (call fresh) = Raise (UnauthorizedError "Token validation failed")
  /\ fst (call fresh) <> Raise (RequestException "connection refused").
Proof.
  split; [|split].
  - vm_compute. reflexivity.
  - vm_compute. reflexivity.
  - vm_compute. discriminate.
Qed.

(** C1, amended: when a call reaches the [try] block with an empty cache
    and the key set cannot be retrieved, the resolver raises the transport
    error unchanged, and [validate_jwt_token] catches it in its last
    [except] clause and raises [UnauthorizedError("Token validation
    failed")] instead. *)
Theorem fetch_error_is_reclassified (w : world) (ev : event)
    (region user_pool_id app_client_id : option string)
    (token r p a : string) (st : state) (e : exn) :
  reaches_try w ev region user_pool_id app_client_id token r p a ->
  jwks_cache st = JNull ->
  transport_error w (length (requests_sent st)) (jwks_url r p) e ->
  exists st',
    get_jwks w (Some r) (Some p) st = (Raise e, st') /\
    validate_jwt_token w ev region user_pool_id app_client_id st
    = (Raise (UnauthorizedError "Token validation failed"), st').
Proof.
  intros Hreach Hc Ht.
  assert (Hr : effective_region w (Some r) = r).
  { destruct Hreach as [_ [-> _]]. apply or_default_idem. }
  assert (Hp : p <> "") by (now destruct Hreach as (_ & _ & _ & _ & Hp & _)).
  rewrite <- Hr in Ht.
  pose proof (get_jwks_transport_error w (Some r) p st e Hc Hp Ht) as Hg.
  eexists. split; [exact Hg|].
  rewrite (validate_enters_try w _ _ _ _ _ _ _ _ _ Hreach).
  unfold try_except.
  rewrite (checked_claims_resolver_raises w _ _ _ _ _ _ _ Hg).
  destruct Ht as [[m ->] _]. reflexivity.
Qed.

Lemma fetch_error_is_reclassified_witness :
  exists st',
    get_jwks offline_world (Some "us-west-2") (Some "test-pool") fresh
    = (Raise (RequestException "connection refused"), st') /\
    validate_jwt_token offline_world
      (event_of "Authorization" "Bearer valid-token-123")
      (Some "us-west-2") (Some "test-pool") (Some "test-client") fresh
    = (Raise (UnauthorizedError "Token validation failed"), st').
Proof.
  apply (fetch_error_is_reclassified offline_world _ _ _ _
           "valid-token-123" "us-west-2" "test-pool" "test-client").
  - split; [exists "Bearer valid-token-123"|];
      repeat split; try reflexivity; discriminate.
  - reflexivity.
  - split; [now eexists | now left].
Defined.

(** C2: a token that verifies under the key of the resolved key set that
    its header names comes back as the claim set [jwt.decode] produced,
    unchanged.  Key ids are unique in the key set, as the design
    assumes. *)
Theorem valid_token_returns_claims (w : world) (ev : event)
    (region user_pool_id app_client_id : option string)
    (token r p a : string) (st st' : state)
    (jwks kid k : json) (keys : list json) (claims : dict) :
  reaches_try w ev region user_pool_id app_client_id token r p a ->
  get_jwks w (Some r) (Some p) st = (Ok jwks, st') ->
  key_list jwks = Ok keys ->
  Forall has_kid keys ->
  token_kid w token = Ok kid ->
  In k keys ->
  kid_matches kid k ->
  (forall k', In k' keys -> kid_matches kid k' -> k' = k) ->
  jwt_decode w token k ["RS256"] a (issuer_url r p) = Ok claims ->
  validate_jwt_token w ev region user_pool_id app_client_id st
  = (Ok claims, st').
Proof.
  intros Hreach Hj Hl Hall Hk Hin Hm Huniq Hd.
  rewrite (validate_enters_try w _ _ _ _ _ _ _ _ _ Hreach).
  unfold try_except.
  rewrite (checked_claims_decodes w token r p a st st' jwks kid k keys);
    try assumption.
  - now rewrite Hd.
  - now apply scan_keys_unique.
  - apply has_kid_truthy. destruct Hm as [v [Hv _]]. now exists v.
Qed.

Lemma valid_token_returns_claims_witness :
  validate_jwt_token test_world
    (event_of "Authorization" "Bearer valid-token-123")
    (Some "us-west-2") (Some "test-pool") (Some "test-client") fresh
  = (Ok test_claims,
     {| jwks_cache := test_jwks;
        requests_sent := [jwks_url "us-west-2" "test-pool"] |}).
Proof.
  apply (valid_token_returns_claims test_world _ _ _ _
           "valid-token-123" "us-west-2" "test-pool" "test-client"
           fresh _ test_jwks (JStr "test-kid") test_key [test_key]).
  - split; [exists "Bearer valid-token-123"|];
      repeat split; try reflexivity; discriminate.
  - reflexivity.
  - reflexivity.
  - repeat constructor. now exists (JStr "test-kid").
  - reflexivity.
  - now left.
  - now exists (JStr "test-kid").
  - intros k' [<-|[]] _. reflexivity.
  - reflexivity.
Defined.

(** C3: once a call has returned a key set, the cache answers every
    later call: the whole sequence sends at most one request, and every
    call returns the same value whatever its arguments. *)
Theorem key_set_fetched_at_most_once (w : world)
    (region user_pool_id : option string)
    (calls : list (option string * option string))
    (st st1 : state) (j : json) :
  get_jwks w region user_pool_id st = (Ok j, st1) ->
  j <> JNull ->
  run_get_jwks w ((region, user_pool_id) :: calls) st
  = (repeat (Ok j) (S (length calls)), st1)
  /\ (length (requests_sent st1) <= S (length (requests_sent st)))%nat
  /\ (jwks_cache st <> JNull -> requests_sent st1 = requests_sent st).
Proof.
  intros Hg Hj. pose proof (get_jwks_populates w _ _ _ _ _ Hg Hj) as Hc.
  split; [|split].
  - cbn [run_get_jwks]. rewrite Hg.
    rewrite (run_get_jwks_cached w calls st1) by (rewrite Hc; exact Hj).
    now rewrite Hc.
  - destruct (get_jwks_requests w _ _ _ _ _ Hg) as [-> | [url ->]].
    + lia.
    + rewrite length_app. cbn. lia.
  - intros Hst. rewrite (get_jwks_cached w _ _ _ Hst) in Hg.
    now injection Hg as _ <-.
Qed.

Lemma key_set_fetched_at_most_once_witness :
  run_get_jwks test_world
    [(Some "us-west-2", Some "test-pool-id"); (Some "eu-west-1", Some "other");
     (None, None)] fresh
  = (repeat (Ok test_jwks) 3, warm)
  /\ (length (requests_sent warm) <= 1)%nat
  /\ (jwks_cache fresh <> JNull -> requests_sent warm = requests_sent fresh).
Proof.
  apply (key_set_fetched_at_most_once test_world
           (Some "us-west-2") (Some "test-pool-id")
           [(Some "eu-west-1", Some "other"); (None, None)] fresh warm
           test_jwks).
  - reflexivity.
  - discriminate.
Defined.

(** C4: when [jwt.decode] rejects the token, for whatever cause, the
    caller sees [UnauthorizedError("Invalid or expired token")] and
    nothing of the cause. *)
Theorem verification_failure_is_generic (w : world) (ev : event)
    (region user_pool_id app_client_id : option string)
    (token r p a : string) (st st' : state)
    (jwks kid key : json) (keys : list json) (cause : string) :
  reaches_try w ev region user_pool_id app_client_id token r p a ->
  get_jwks w (Some r) (Some p) st = (Ok jwks, st') ->
  token_kid w token = Ok kid ->
  key_list jwks = Ok keys ->
  scan_keys keys kid = Ok key ->
  truthy key = true ->
  jwt_decode w token key ["RS256"] a (issuer_url r p)
  = Raise (JWTError cause) ->
  validate_jwt_token w ev region user_pool_id app_client_id st
  = (Raise (UnauthorizedError "Invalid or expired token"), st').
Proof.
  intros Hreach Hj Hk Hl Hs Ht Hd.
  rewrite (validate_enters_try w _ _ _ _ _ _ _ _ _ Hreach).
  unfold try_except.
  rewrite (checked_claims_decodes w token r p a st st' jwks kid key keys);
    try assumption.
  now rewrite Hd.
Qed.

Lemma verification_failure_is_generic_witness :
  validate_jwt_token test_world
    (event_of "Authorization" "Bearer expired-token")
    (Some "us-west-2") (Some "test-pool") (Some "test-client") fresh
  = (Raise (UnauthorizedError "Invalid or expired token"),
     {| jwks_cache := test_jwks;
        requests_sent := [jwks_url "us-west-2" "test-pool"] |}).
Proof.
  apply (verification_failure_is_generic test_world _ _ _ _
           "expired-token" "us-west-2" "test-pool" "test-client"
           fresh _ test_jwks (JStr "test-kid") test_key [test_key]
           "Token expired").
  - split; [exists "Bearer expired-token"|];
      repeat split; try reflexivity; discriminate.
  - reflexivity.
  - reflexivity.
  - reflexivity.
  - reflexivity.
  - reflexivity.
  - reflexivity.
Defined.





(** C6, the claim as stated fails: an empty header value does not split
    into two parts, and the call fails with the missing-header error, not
    with the malformed-header one. *)
Lemma empty_header_value_is_missing :
  let call := validate_jwt_token test_world (event_of "Authorization" "")
                (Some "us-west-2") (Some "test-pool") (Some "test-client") in
  find_auth_header (event_of "Authorization" "") = Some ""
  /\ split "" = []
  /\ fst (call fresh) = Raise (UnauthorizedError "Missing Authorization header")
  /\ fst (call fresh)
     <> Raise (UnauthorizedError "Invalid Authorization header format").
Proof.
  repeat split; try (vm_compute; reflexivity). vm_compute. discriminate.
Qed.

(** C6, amended: for every non-empty authorization header value that
    does not split on white space into exactly two parts with the first
    part equal to [bearer] in any case, the call fails with
    [UnauthorizedError("Invalid Authorization header format")]; the bare
    word [Bearer] is such a value.  (An empty value is reported as a
    missing header.) *)
Theorem malformed_header_rejected (w : world) (ev : event)
    (region user_pool_id app_client_id : option string) (st : state)
    (h : string) :
  find_auth_header ev = Some h ->
  h <> "" ->
  (forall scheme token,
     split h = [scheme; token] -> lower scheme <> "bearer") ->
  validate_jwt_token w ev region user_pool_id app_client_id st
  = (Raise (UnauthorizedError "Invalid Authorization header format"), st).
Proof.
  intros Hh Hne Hparts. apply (validate_malformed_header w ev _ _ _ st h Hh Hne).
  unfold bearer_token.
  destruct (split h) as [|scheme [|token [|x parts]]] eqn:E; try reflexivity.
  destruct (String.eqb (lower scheme) "bearer") eqn:Eb; [|reflexivity].
  apply String.eqb_eq in Eb. now apply (Hparts scheme token) in Eb.
Qed.

Lemma malformed_header_rejected_witness :
  validate_jwt_token test_world (event_of "Authorization" "Bearer")
    None None None fresh
  = (Raise (UnauthorizedError "Invalid Authorization header format"), fresh).
Proof.
  apply (malformed_header_rejected test_world
           (event_of "Authorization" "Bearer") None None None fresh "Bearer").
  - reflexivity.
  - discriminate.
  - intros scheme token. vm_compute. discriminate.
Defined.

(** C7, the claim as stated fails: with a populated cache the resolver
    returns the cached key set although no user pool id is configured. *)
Lemma cached_resolver_skips_configuration :
  effective_user_pool_id test_world None = ""
  /\ get_jwks test_world (Some "us-west-2") None warm = (Ok test_jwks, warm).
Proof. split; vm_compute; reflexivity. Qed.

(** C7, amended: when the user pool id resolves to empty, the resolver
    raises [ValueError] if the cache is empty, before any request; if the
    cache is populated it returns the cached key set and never looks at
    the configuration. *)
Theorem unconfigured_resolver_raises (w : world)
    (region user_pool_id : option string) (st : state) :
  effective_user_pool_id w user_pool_id = "" ->
  (jwks_cache st = JNull ->
   get_jwks w region user_pool_id st
   = (Raise (ValueError msg_user_pool_id_required), st))
  /\ (jwks_cache st <> JNull ->
      get_jwks w region user_pool_id st = (Ok (jwks_cache st), st)).
Proof.
  intros Hp. split.
  - intros Hc. now apply get_jwks_unconfigured.
  - intros Hc. now apply get_jwks_cached.
Qed.

Lemma unconfigured_resolver_raises_witness :
  get_jwks test_world (Some "us-west-2") None fresh
  = (Raise (ValueError msg_user_pool_id_required), fresh)
  /\ get_jwks test_world (Some "us-west-2") None warm = (Ok test_jwks, warm).
Proof.
  split.
  - apply (unconfigured_resolver_raises test_world (Some "us-west-2") None
             fresh); reflexivity.
  - apply (unconfigured_resolver_raises test_world (Some "us-west-2") None
             warm); [reflexivity|discriminate].
Defined.

(** C8: the key is chosen by a scan of the key list in order.  When no
    entry's key id equals the one the token names, the call fails with
    [UnauthorizedError("Invalid token")]; otherwise the first entry that
    matches is the key handed to [jwt.decode], and the call ends as that
    verification does. *)
Theorem key_selection_is_first_match (w : world) (ev : event)
    (region user_pool_id app_client_id : option string)
    (token r p a : string) (st st' : state)
    (jwks kid : json) (keys : list json) :
  reaches_try w ev region user_pool_id app_client_id token r p a ->
  get_jwks w (Some r) (Some p) st = (Ok jwks, st') ->
  token_kid w token = Ok kid ->
  key_list jwks = Ok keys ->
  (Forall (kid_differs kid) keys ->
   validate_jwt_token w ev region user_pool_id app_client_id st
   = (Raise (UnauthorizedError "Invalid token"), st'))
  /\ (forall before k after,
        keys = (before ++ k :: after)%list ->
        Forall (kid_differs kid) before ->
        kid_matches kid k ->
        scan_keys keys kid = Ok k
        /\ validate_jwt_token w ev region user_pool_id app_client_id st
           = try_except
               (lift (jwt_decode w token k ["RS256"] a (issuer_url r p)))
               reclassify st').
Proof.
  intros Hreach Hj Hk Hl. split.
  - intros Hnone.
    rewrite (validate_enters_try w _ _ _ _ _ _ _ _ _ Hreach).
    unfold try_except.
    rewrite (checked_claims_no_key w token r p a st st' jwks kid keys);
      try assumption; [reflexivity|].
    now apply scan_keys_none.
  - intros before k after -> Hb Hm.
    pose proof (scan_keys_first kid k before after Hb Hm) as Hs.
    split; [exact Hs|].
    rewrite (validate_enters_try w _ _ _ _ _ _ _ _ _ Hreach).
    unfold try_except.
    rewrite (checked_claims_decodes w token r p a st st' jwks kid k
               (before ++ k :: after)); try assumption.
    + reflexivity.
    + apply has_kid_truthy. destruct Hm as [v [Hv _]]. now exists v.
Qed.

Lemma key_selection_is_first_match_witness :
  (scan_keys [test_key] (JStr "test-kid") = Ok test_key
   /\ validate_jwt_token test_world
        (event_of "Authorization" "Bearer valid-token-123")
        (Some "us-west-2") (Some "test-pool") (Some "test-client") fresh
      = try_except
          (lift (jwt_decode test_world "valid-token-123" test_key ["RS256"]
                   "test-client" (issuer_url "us-west-2" "test-pool")))
          reclassify
          {| jwks_cache := test_jwks;
             requests_sent := [jwks_url "us-west-2" "test-pool"] |})
  /\ validate_jwt_token rotated_world
       (event_of "Authorization" "Bearer token123")
       (Some "us-west-2") (Some "test-pool") (Some "test-client") fresh
     = (Raise (UnauthorizedError "Invalid token"),
        {| jwks_cache := rotated_jwks;
           requests_sent := [jwks_url "us-west-2" "test-pool"] |}).
Proof.
  split.
  - apply (key_selection_is_first_match test_world
             (event_of "Authorization" "Bearer valid-token-123")
             (Some "us-west-2") (Some "test-pool") (Some "test-client")
             "valid-token-123" "us-west-2" "test-pool" "test-client"
             fresh _ test_jwks (JStr "test-kid") [test_key])
      with (before := []) (after := []).
    + split; [exists "Bearer valid-token-123"|];
        repeat split; try reflexivity; discriminate.
    + reflexivity.
    + reflexivity.
    + reflexivity.
    + reflexivity.
    + constructor.
    + now exists (JStr "test-kid").
  - apply (key_selection_is_first_match rotated_world
             (event_of "Authorization" "Bearer token123")
             (Some "us-west-2") (Some "test-pool") (Some "test-client")
             "token123" "us-west-2" "test-pool" "test-client"
             fresh _ rotated_jwks (JStr "test-kid")
             [JObj [("kid", JStr "different-kid"); ("kty", JStr "RSA")]]).
    + split; [exists "Bearer token123"|];
        repeat split; try reflexivity; discriminate.
    + reflexivity.
    + reflexivity.
    + reflexivity.
    + repeat constructor. now exists (JStr "different-kid").
Defined.



(** The first call of a process sends one request, to the well-known URL
    of the user pool with a timeout of 10, and caches the body it gets. *)
Theorem first_call_fetches_key_set (w : world)
    (region user_pool_id : option string) (st : state)
    (resp : response) (j : json) :
  let url := jwks_url (effective_region w region)
               (effective_user_pool_id w user_pool_id) in
  jwks_cache st = JNull ->
  effective_user_pool_id w user_pool_id <> "" ->
  requests_get w (length (requests_sent st)) url 10 = Ok resp ->
  raise_for_status resp = None ->
  response_json resp = Ok j ->
  get_jwks w region user_pool_id st
  = (Ok j, {| jwks_cache := j;
              requests_sent := (requests_sent st ++ [url])%list |}).
Proof.
  intros url Hc Hp Hget Hstatus Hbody. subst url.
  unfold effective_region, effective_user_pool_id in *.
  unfold get_jwks, mbind, read_cache. rewrite Hc.
  rewrite (eqb_empty_false _ Hp). unfold http_get. rewrite Hget.
  unfold check_status. rewrite Hstatus. cbn. rewrite Hbody. reflexivity.
Qed.

Lemma first_call_fetches_key_set_witness :
  get_jwks test_world (Some "us-west-2") (Some "test-pool-id") fresh
  = (Ok test_jwks, warm).
Proof.
  apply (first_call_fetches_key_set test_world (Some "us-west-2")
           (Some "test-pool-id") fresh
           {| raise_for_status := None; response_json := Ok test_jwks |}
           test_jwks); try reflexivity.
  discriminate.
Defined.



End CognitoClaims.

(** ** [json.loads] undoes [json.dumps] *)
Module JsonFacts.
Import Py Json.
Local Open Scope string_scope.
#[local] Arguments String.append !s1 s2 : simpl nomatch.

Lemma append_assoc (a b c : string) : (a ++ b) ++ c = a ++ (b ++ c).
Proof. induction a as [|x a IH]; simpl; [reflexivity|now rewrite IH]. Qed.

Lemma append_nil_r (a : string) : a ++ "" = a.
Proof. induction a as [|x a IH]; simpl; [reflexivity|now rewrite IH]. Qed.

Lemma length_append (a b : string) :
  String.length (a ++ b) = (String.length a + String.length b)%nat.
Proof. induction a as [|x a IH]; simpl; [reflexivity|now rewrite IH]. Qed.

(** *** Strings *)

(** Reading back the escape of one character gives the character. *)
Lemma scanstring_escape_char (c : ascii) (t : string) :
  scanstring (escape_char c ++ t) = prepend c (scanstring t).
Proof.
  destruct c as [[|] [|] [|] [|] [|] [|] [|] [|]]; reflexivity.
Qed.

Lemma scanstring_escape (s rest : string) :
  scanstring (escape s ++ String dquote rest) = Ok (s, rest).
Proof.
  induction s as [|c s IH]; simpl escape.
  - reflexivity.
  - rewrite append_assoc, scanstring_escape_char, IH. reflexivity.
Qed.

Lemma encode_basestring_ascii_append (s rest : string) :
  encode_basestring_ascii s ++ rest
  = String dquote (escape s ++ String dquote rest).
Proof. unfold encode_basestring_ascii. simpl. now rewrite append_assoc. Qed.

(** *** Numbers *)

Lemma delimited_no_digit (rest : string) :
  delimited rest = true -> starts_with_digit rest = false.
Proof.
  destruct rest as [|[[|] [|] [|] [|] [|] [|] [|] [|]] r];
    intros H; vm_compute in H; try discriminate H; reflexivity.
Qed.

Lemma delimited_no_float (rest : string) :
  delimited rest = true -> has_frac rest || has_exp (skip_frac rest) = false.
Proof.
  destruct rest as [|[[|] [|] [|] [|] [|] [|] [|] [|]] r];
    intros H; vm_compute in H; try discriminate H; reflexivity.
Qed.

Lemma scan_digits_stop (rest : string) :
  starts_with_digit rest = false -> scan_digits rest = (Nil, rest).
Proof.
  destruct rest as [|c r]; [reflexivity|]. unfold starts_with_digit, is_digit.
  simpl. now destruct (digit_of_char c).
Qed.

(** The digits that were printed are the digits that are read. *)
Lemma scan_digits_string_of_uint (d : uint) (rest : string) :
  starts_with_digit rest = false ->
  scan_digits (NilEmpty.string_of_uint d ++ rest) = (d, rest).
Proof.
  intros H. induction d as [|d IH|d IH|d IH|d IH|d IH|d IH|d IH|d IH|d IH|d IH];
    simpl; rewrite ?IH; [now apply scan_digits_stop|reflexivity..].
Qed.

(** The decimal digits of a positive number do not start with [0]. *)
Lemma to_uint_head (p : positive) :
  exists c t,
    NilEmpty.string_of_uint (Pos.to_uint p) = String c t
    /\ nonzero_digit c = true.
Proof.
  pose proof (DecimalPos.Unsigned.to_of (Pos.to_uint p)) as Hn.
  rewrite DecimalPos.Unsigned.of_to in Hn. simpl in Hn.
  destruct (Pos.to_uint p) as [|d|d|d|d|d|d|d|d|d|d] eqn:E;
    try (simpl; eexists _, _; split; [reflexivity|reflexivity]).
  - now apply DecimalPos.Unsigned.to_uint_nonnil in E.
  - exfalso. change (unorm (D0 d)) with (unorm d) in Hn.
    assert (Hd : d = Nil \/ d <> Nil)
      by (destruct d; [now left|right; discriminate..]).
    destruct Hd as [-> | Hd].
    + exact (DecimalPos.Unsigned.to_uint_nonzero p E).
    + pose proof (DecimalFacts.nb_digits_unorm d Hd) as Hle.
      rewrite <- Hn in Hle. simpl in Hle. lia.
Qed.

(** What [scan_once] does with a text that starts with a digit other than
    [0], and with a minus sign followed by such a digit. *)
Lemma scan_once_digit (fuel : nat) (c : ascii) (t : string) :
  nonzero_digit c = true ->
  scan_once (S fuel) (String c t)
  = let (d, r) := scan_digits (String c t) in
    if has_frac r || has_exp (skip_frac r) then Raise (Unmodelled "float")
    else Ok (JInt (Z.of_int (Pos d)), r).
Proof.
  destruct c as [[|] [|] [|] [|] [|] [|] [|] [|]];
    intros H; vm_compute in H; try discriminate H; reflexivity.
Qed.

Lemma scan_once_minus_digit (fuel : nat) (c : ascii) (t : string) :
  nonzero_digit c = true ->
  scan_once (S fuel) (String "-" (String c t))
  = let (d, r) := scan_digits (String c t) in
    if has_frac r || has_exp (skip_frac r) then Raise (Unmodelled "float")
    else Ok (JInt (Z.of_int (Neg d)), r).
Proof.
  destruct c as [[|] [|] [|] [|] [|] [|] [|] [|]];
    intros H; vm_compute in H; try discriminate H; reflexivity.
Qed.

Lemma scan_once_int (fuel : nat) (z : Z) (rest : string) :
  delimited rest = true ->
  scan_once (S fuel) (int_repr z ++ rest) = Ok (JInt z, rest).
Proof.
  intros Hd. pose proof (delimited_no_float rest Hd) as Hf.
  pose proof (delimited_no_digit rest Hd) as Hn.
  unfold int_repr. destruct z as [|p|p]; simpl Z.to_int.
  - change (scan_once (S fuel) (String "0" rest)
            = Ok (JInt 0, rest)).
    change (scan_once (S fuel) (String "0" rest))
      with (if has_frac rest || has_exp (skip_frac rest)
            then Raise (Unmodelled "float")
            else Ok (JInt 0, rest)).
    now rewrite Hf.
  - pose proof (scan_digits_string_of_uint (Pos.to_uint p) rest Hn) as Hs.
    simpl NilEmpty.string_of_int.
    destruct (to_uint_head p) as [c [t [Ec Hc]]]. rewrite Ec in Hs |- *.
    simpl append in Hs |- *. rewrite (scan_once_digit fuel c _ Hc), Hs, Hf.
    do 2 f_equal. f_equal. exact (DecimalZ.of_to (Zpos p)).
  - pose proof (scan_digits_string_of_uint (Pos.to_uint p) rest Hn) as Hs.
    simpl NilEmpty.string_of_int.
    destruct (to_uint_head p) as [c [t [Ec Hc]]]. rewrite Ec in Hs |- *.
    simpl append in Hs |- *. rewrite (scan_once_minus_digit fuel c _ Hc), Hs, Hf.
    do 2 f_equal. f_equal. exact (DecimalZ.of_to (Zneg p)).
Qed.

(** *** Values *)

Lemma nonzero_digit_value_start (c : ascii) :
  nonzero_digit c = true -> value_start c = true.
Proof.
  destruct c as [[|] [|] [|] [|] [|] [|] [|] [|]];
    intros H; vm_compute in H; try discriminate H; reflexivity.
Qed.

(** The text of a value starts with a character that is neither white
    space nor a closing bracket. *)
Lemma dumps_head (j : json) :
  exists c t, dumps j = String c t /\ value_start c = true.
Proof.
  destruct j as [|[|]|[|p|p]|s|items|members]; simpl;
    try (eexists _, _; split; reflexivity).
  unfold int_repr. simpl.
  destruct (to_uint_head p) as [c [t [-> Hc]]].
  exists c, t. split; [reflexivity|now apply nonzero_digit_value_start].
Qed.

Lemma skip_ws_value_start (c : ascii) (t : string) :
  value_start c = true -> skip_ws (String c t) = String c t.
Proof.
  unfold value_start. simpl. destruct (is_ws c); [discriminate|reflexivity].
Qed.

Lemma scan_once_array (fuel : nat) (c : ascii) (u : string) :
  value_start c = true ->
  scan_once (S fuel) (String "[" (String c u))
  = bind (scan_items fuel (String c u)) (fun vr => Ok (JArr (fst vr), snd vr)).
Proof.
  intros H. unfold value_start in H. simpl.
  destruct (is_ws c); [discriminate|].
  destruct (Ascii.eqb c "]"); [discriminate|]. reflexivity.
Qed.

Lemma scan_once_object (fuel : nat) (c : ascii) (u : string) :
  value_start c = true ->
  scan_once (S fuel) (String "{" (String c u))
  = bind (scan_members fuel (String c u)) (fun pr =>
      Ok (JObj (dict_of_pairs (fst pr)), snd pr)).
Proof.
  intros H. unfold value_start in H. simpl.
  destruct (is_ws c); [discriminate|].
  destruct (Ascii.eqb c "]"); [discriminate|].
  destruct (Ascii.eqb c "}"); [discriminate|]. reflexivity.
Qed.

(** One step of the loops of [JSONArray] and [JSONObject]. *)
Lemma scan_items_last (fuel : nat) (s rest : string) (x : json) :
  scan_once fuel s = Ok (x, String "]" rest) ->
  scan_items (S fuel) s = Ok ([x], rest).
Proof. intros H. simpl. rewrite H. reflexivity. Qed.

Lemma scan_items_more (fuel : nat) (s u : string) (x : json) :
  scan_once fuel s = Ok (x, String "," (String " " u)) ->
  scan_items (S fuel) s
  = bind (scan_items fuel (skip_ws u)) (fun vs => Ok (x :: fst vs, snd vs)).
Proof. intros H. simpl. rewrite H. reflexivity. Qed.

Lemma scan_members_last (fuel : nat) (u s2 rest k : string) (v : json) :
  scanstring u = Ok (k, String ":" (String " " s2)) ->
  scan_once fuel (skip_ws s2) = Ok (v, String "}" rest) ->
  scan_members (S fuel) (String dquote u) = Ok ([(k, v)], rest).
Proof. intros Hk Hv. simpl. rewrite Hk. simpl. rewrite Hv. reflexivity. Qed.

Lemma scan_members_more (fuel : nat) (u s2 u2 k : string) (v : json) :
  scanstring u = Ok (k, String ":" (String " " s2)) ->
  scan_once fuel (skip_ws s2) = Ok (v, String "," (String " " u2)) ->
  scan_members (S fuel) (String dquote u)
  = bind (scan_members fuel (skip_ws u2)) (fun ms =>
      Ok ((k, v) :: fst ms, snd ms)).
Proof. intros Hk Hv. simpl. rewrite Hk. simpl. rewrite Hv. reflexivity. Qed.

Lemma join_items_head (x : json) (l : list json) :
  exists c t,
    join ", " (map dumps (x :: l)) = String c t /\ value_start c = true.
Proof.
  destruct (dumps_head x) as [c [t [E Hc]]].
  destruct l as [|y l]; simpl; rewrite E.
  - now exists c, t.
  - simpl. now eexists c, _.
Qed.

Lemma join_members_head (kv : string * json) (l : list (string * json)) :
  exists t, join ", " (map member_text (kv :: l)) = String dquote t.
Proof.
  destruct l as [|y l]; simpl; unfold member_text at 1, encode_basestring_ascii;
    simpl; now eexists.
Qed.

Lemma skip_ws_head (s u : string) :
  (exists c t, s = String c t /\ value_start c = true) ->
  skip_ws (s ++ u) = s ++ u.
Proof.
  intros [c [t [-> Hc]]]. simpl append. now apply skip_ws_value_start.
Qed.

Lemma skip_ws_dumps (j : json) (u : string) :
  skip_ws (dumps j ++ u) = dumps j ++ u.
Proof. apply skip_ws_head, dumps_head. Qed.

Lemma skip_ws_join_items (x : json) (l : list json) (u : string) :
  skip_ws (join ", " (map dumps (x :: l)) ++ u)
  = join ", " (map dumps (x :: l)) ++ u.
Proof. apply skip_ws_head, join_items_head. Qed.

Lemma skip_ws_join_members (kv : string * json) (l : list (string * json))
    (u : string) :
  skip_ws (join ", " (map member_text (kv :: l)) ++ u)
  = join ", " (map member_text (kv :: l)) ++ u.
Proof.
  apply skip_ws_head. destruct (join_members_head kv l) as [t E].
  now exists dquote, t.
Qed.

Lemma scan_items_dumps (items : list json) :
  Forall reads_back items ->
  items <> [] ->
  forall fuel rest,
    (list_sum (map (fun x => S (cost x)) items) <= fuel)%nat ->
    scan_items fuel (join ", " (map dumps items) ++ String "]" rest)
    = Ok (items, rest).
Proof.
  induction 1 as [|x l Hx Hl IH]; [congruence|]. intros _ fuel rest Hfuel.
  simpl in Hfuel. destruct fuel as [|fuel]; [lia|].
  destruct l as [|y l].
  - simpl join. apply scan_items_last. apply Hx; [simpl in *; lia|reflexivity].
  - change (join ", " (map dumps (x :: y :: l)))
      with (dumps x ++ ", " ++ join ", " (map dumps (y :: l))).
    rewrite append_assoc.
    rewrite (scan_items_more fuel _
               (join ", " (map dumps (y :: l)) ++ String "]" rest) x).
    + rewrite skip_ws_join_items.
      rewrite IH; [reflexivity|discriminate|lia].
    + rewrite append_assoc. apply Hx; [lia|reflexivity].
Qed.

Lemma scan_members_dumps (members : list (string * json)) :
  Forall (fun kv => reads_back (snd kv)) members ->
  members <> [] ->
  forall fuel rest,
    (list_sum (map (fun kv => S (cost (snd kv))) members) <= fuel)%nat ->
    scan_members fuel (join ", " (map member_text members) ++ String "}" rest)
    = Ok (members, rest).
Proof.
  induction 1 as [|[k v] l Hv Hl IH]; [congruence|]. intros _ fuel rest Hfuel.
  simpl in Hfuel, Hv. destruct fuel as [|fuel]; [lia|].
  destruct l as [|y l].
  - simpl join. unfold member_text. simpl fst. simpl snd.
    rewrite append_assoc, encode_basestring_ascii_append.
    apply (scan_members_last fuel _ (dumps v ++ String "}" rest) rest k v).
    + rewrite !append_assoc. apply scanstring_escape.
    + rewrite skip_ws_dumps. apply Hv; [simpl in *; lia|reflexivity].
  - change (join ", " (map member_text ((k, v) :: y :: l)))
      with (member_text (k, v) ++ ", " ++ join ", " (map member_text (y :: l))).
    unfold member_text at 1. simpl fst. simpl snd.
    rewrite !append_assoc, encode_basestring_ascii_append.
    rewrite (scan_members_more fuel _
               (dumps v ++ ", " ++
                join ", " (map member_text (y :: l)) ++ String "}" rest)
               (join ", " (map member_text (y :: l)) ++ String "}" rest)
               k v).
    + rewrite skip_ws_join_members.
      rewrite IH; [reflexivity|discriminate|lia].
    + apply scanstring_escape.
    + rewrite skip_ws_dumps. apply Hv; [lia|reflexivity].
Qed.

(** *** Dicts *)

Lemma dict_set_fresh {V : Type} (k : string) (v : V) (d : list (string * V)) :
  ~ In k (map fst d) -> dict_set k v d = (d ++ [(k, v)])%list.
Proof.
  induction d as [|[k' v'] d IH]; simpl; [reflexivity|]. intros Hk.
  destruct (String.eqb_spec k k') as [->|Hne].
  - exfalso. apply Hk. now left.
  - rewrite IH; [reflexivity|]. intros Hin. apply Hk. now right.
Qed.

Lemma fold_dict_set {V : Type} (l acc : list (string * V)) :
  NoDup (map fst l) ->
  (forall kv, In kv l -> ~ In (fst kv) (map fst acc)) ->
  fold_left (fun d kv => dict_set (fst kv) (snd kv) d) l acc
  = (acc ++ l)%list.
Proof.
  revert acc. induction l as [|[k v] l IH]; intros acc Hnd Hfresh; simpl.
  - now rewrite app_nil_r.
  - apply NoDup_cons in Hnd as [Hk Hnd']. rewrite list_elem_of_In in Hk.
    rewrite dict_set_fresh by (apply (Hfresh (k, v)); now left).
    rewrite IH.
    + now rewrite <- app_assoc.
    + exact Hnd'.
    + intros kv Hin. rewrite map_app, in_app_iff. simpl.
      intros [Hacc | [Heq | []]].
      * apply (Hfresh kv); [now right|exact Hacc].
      * apply Hk. rewrite Heq. apply in_map_iff. now exists kv.
Qed.

(** Pairs with distinct keys make the dict that lists them in order. *)
Lemma dict_of_pairs_nodup {V : Type} (l : list (string * V)) :
  NoDup (map fst l) -> dict_of_pairs l = l.
Proof.
  intros Hnd. unfold dict_of_pairs. rewrite fold_dict_set; [reflexivity|exact Hnd|].
  intros kv _ [].
Qed.

(** *** The round trip *)

Lemma dumps_arr (items : list json) (rest : string) :
  dumps (JArr items) ++ rest
  = String "[" (join ", " (map dumps items) ++ String "]" rest).
Proof.
  change (dumps (JArr items)) with ("[" ++ join ", " (map dumps items) ++ "]").
  simpl append. now rewrite append_assoc.
Qed.

Lemma dumps_obj (members : list (string * json)) (rest : string) :
  dumps (JObj members) ++ rest
  = String "{" (join ", " (map member_text members) ++ String "}" rest).
Proof.
  change (dumps (JObj members))
    with ("{" ++ join ", " (map member_text members) ++ "}").
  simpl append. now rewrite append_assoc.
Qed.

Lemma scan_once_dumps (j : json) : wf_json j -> reads_back j.
Proof.
  induction j as [|b|z|s|items IH|members IH] using json_ind;
    intros Hwf fuel rest Hfuel Hd;
    (destruct fuel as [|fuel]; [simpl in Hfuel; lia|]).
  - reflexivity.
  - now destruct b.
  - now apply scan_once_int.
  - simpl dumps. rewrite encode_basestring_ascii_append. simpl.
    rewrite scanstring_escape. reflexivity.
  - assert (Hall : Forall reads_back items).
    { inversion Hwf as [| | | |? Hitems|]; subst.
      clear -IH Hitems. induction IH as [|x l Hx _ IHl]; [constructor|].
      inversion Hitems; subst. constructor; auto. }
    rewrite dumps_arr.
    destruct items as [|x l]; [reflexivity|].
    destruct (join_items_head x l) as [c [t [E Hc]]].
    pose proof (scan_items_dumps (x :: l) Hall ltac:(discriminate) fuel rest)
      as Hs.
    rewrite E in Hs |- *. simpl append in Hs |- *.
    rewrite (scan_once_array fuel c _ Hc), Hs; [reflexivity|].
    simpl in Hfuel |- *. lia.
  - inversion Hwf as [| | | | |? Hnd Hvals]; subst.
    assert (Hall : Forall (fun kv => reads_back (snd kv)) members).
    { clear -IH Hvals. induction IH as [|x l Hx _ IHl]; [constructor|].
      inversion Hvals; subst. constructor; auto. }
    rewrite dumps_obj.
    destruct members as [|kv l]; [reflexivity|].
    destruct (join_members_head kv l) as [t E].
    pose proof (scan_members_dumps (kv :: l) Hall ltac:(discriminate) fuel rest)
      as Hs.
    rewrite E in Hs |- *. simpl append in Hs |- *.
    rewrite (scan_once_object fuel dquote _ eq_refl), Hs.
    + simpl. rewrite (dict_of_pairs_nodup (kv :: l) Hnd). reflexivity.
    + simpl in Hfuel |- *. lia.
Qed.

(** The fuel [loads] provides is enough for the text of any value. *)
Lemma join_cons (sep x y : string) (l : list string) :
  join sep (x :: y :: l) = x ++ sep ++ join sep (y :: l).
Proof. reflexivity. Qed.

Lemma length_join_items (f : json -> nat) (items : list json) :
  Forall (fun x => (f x <= String.length (dumps x))%nat) items ->
  (list_sum (map (fun x => S (f x)) items)
   <= S (String.length (join ", " (map dumps items))))%nat.
Proof.
  induction 1 as [|x l Hx _ IH]; [simpl; lia|].
  destruct l as [|y l].
  - simpl. lia.
  - change (map dumps (x :: y :: l)) with (dumps x :: dumps y :: map dumps l).
    change (map dumps (y :: l)) with (dumps y :: map dumps l) in IH.
    rewrite join_cons, !length_append.
    change (String.length ", ") with 2%nat.
    change (list_sum (map (fun x => S (f x)) (x :: y :: l)))
      with (S (f x) + list_sum (map (fun x => S (f x)) (y :: l)))%nat.
    lia.
Qed.

Lemma length_join_members (f : json -> nat) (members : list (string * json)) :
  Forall (fun kv => (f (snd kv) <= String.length (dumps (snd kv)))%nat)
    members ->
  (list_sum (map (fun kv => S (f (snd kv))) members)
   <= S (String.length (join ", " (map member_text members))))%nat.
Proof.
  assert (Hm : forall kv : string * json,
             (f (snd kv) <= String.length (dumps (snd kv)))%nat ->
             (S (f (snd kv)) <= String.length (member_text kv))%nat).
  { intros kv H. unfold member_text. rewrite !length_append.
    change (String.length ": ") with 2%nat. lia. }
  induction 1 as [|x l Hx _ IH]; [simpl; lia|].
  apply Hm in Hx. destruct l as [|y l].
  - change (join ", " (map member_text [x])) with (member_text x).
    change (list_sum (map (fun kv => S (f (snd kv))) [x]))
      with (S (f (snd x)) + 0)%nat.
    lia.
  - change (map member_text (x :: y :: l))
      with (member_text x :: member_text y :: map member_text l).
    change (map member_text (y :: l))
      with (member_text y :: map member_text l) in IH.
    rewrite join_cons, !length_append.
    change (String.length ", ") with 2%nat.
    change (list_sum (map (fun kv => S (f (snd kv))) (x :: y :: l)))
      with (S (f (snd x))
            + list_sum (map (fun kv => S (f (snd kv))) (y :: l)))%nat.
    lia.
Qed.

Lemma cost_le_length (j : json) : (cost j <= String.length (dumps j))%nat.
Proof.
  induction j as [|b|z|s|items IH|members IH] using json_ind.
  - simpl. lia.
  - destruct b; simpl; lia.
  - destruct (dumps_head (JInt z)) as [c [t [-> _]]]. simpl. lia.
  - simpl. lia.
  - rewrite <- (append_nil_r (dumps (JArr items))), dumps_arr.
    simpl cost. simpl String.length. rewrite length_append.
    pose proof (length_join_items cost items IH). simpl. lia.
  - rewrite <- (append_nil_r (dumps (JObj members))), dumps_obj.
    simpl cost. simpl String.length. rewrite length_append.
    pose proof (length_join_members cost members IH). simpl. lia.
Qed.

(** [json.loads(json.dumps(j))] is [j]. *)
Lemma loads_dumps (j : json) : wf_json j -> loads (dumps j) = Ok j.
Proof.
  intros Hwf. unfold loads.
  rewrite <- (append_nil_r (dumps j)) at 2. rewrite skip_ws_dumps.
  rewrite (scan_once_dumps j Hwf); [reflexivity| |reflexivity].
  pose proof (cost_le_length j). lia.
Qed.

(** *** [loads] never runs out of fuel *)

Lemma skip_ws_length (s : string) :
  (String.length (skip_ws s) <= String.length s)%nat.
Proof.
  induction s as [|c s IH]; simpl; [lia|].
  destruct (is_ws c); simpl; lia.
Qed.

Lemma prepend_ok (c : ascii) (r : result (string * string)) (k rest : string) :
  prepend c r = Ok (k, rest) -> exists k', r = Ok (k', rest).
Proof.
  destruct r as [[k' rest']|e]; simpl; [|discriminate].
  intros [= _ <-]. now exists k'.
Qed.

(** A string literal that was read ends before the text does. *)
Lemma scanstring_shorter (s k r : string) :
  scanstring s = Ok (k, r) -> (String.length r < String.length s)%nat.
Proof.
  remember (String.length s) as n eqn:Hn. revert s k r Hn.
  induction n as [n IH] using lt_wf_ind. intros s k r Hn.
  destruct s as [|c s]; [discriminate|]. simpl scanstring. simpl in Hn.
  destruct (Ascii.eqb c dquote).
  { intros [= _ <-]. lia. }
  destruct (Ascii.eqb c backslash).
  - destruct s as [|e s]; [discriminate|]. simpl in Hn.
    destruct (Ascii.eqb e "u").
    + destruct s as [|h1 [|h2 [|h3 [|h4 s]]]]; try discriminate.
      simpl in Hn. destruct (hex4 h1 h2 h3 h4) as [m|]; [|discriminate].
      destruct (m <? 256)%N; [|discriminate].
      intros H. apply prepend_ok in H as [k' H].
      apply (IH (String.length s)) in H; [lia|lia|reflexivity].
    + destruct (unescape e) as [c'|]; [|discriminate].
      intros H. apply prepend_ok in H as [k' H].
      apply (IH (String.length s)) in H; [lia|lia|reflexivity].
  - destruct (N_of_ascii c <? 32)%N; [discriminate|].
    intros H. apply prepend_ok in H as [k' H].
    apply (IH (String.length s)) in H; [lia|lia|reflexivity].
Qed.

Lemma strip_prefix_length (p s r : string) :
  strip_prefix p s = Some r ->
  String.length s = (String.length p + String.length r)%nat.
Proof.
  revert s. induction p as [|c p IH]; intros s; simpl.
  - now intros [= ->].
  - destruct s as [|c' s]; [discriminate|].
    destruct (Ascii.eqb c c'); [|discriminate].
    intros H. apply IH in H. simpl. lia.
Qed.

Lemma scan_digits_length (s : string) :
  (String.length (snd (scan_digits s)) <= String.length s)%nat.
Proof.
  induction s as [|c s IH]; simpl; [lia|].
  destruct (digit_of_char c); [|simpl; lia].
  destruct (scan_digits s). simpl in *. lia.
Qed.

Lemma match_number_shorter (s r : string) (v : json) :
  match_number s = Ok (v, r) -> (String.length r < String.length s)%nat.
Proof.
  assert (Hint : forall t d r',
             scan_int_part t = Some (d, r') ->
             (String.length r' < String.length t)%nat).
  { intros t d r'. destruct t as [|c t]; [discriminate|]. simpl.
    destruct (Ascii.eqb c "0"); [intros [= _ <-]; lia|].
    unfold is_digit. destruct (digit_of_char c); [|discriminate].
    pose proof (scan_digits_length t). destruct (scan_digits t).
    intros [= _ <-]. simpl in *. lia. }
  unfold match_number.
  destruct s as [|c s]; [discriminate|].
  destruct (Ascii.eqb c "-").
  - destruct (scan_int_part s) as [[d r']|] eqn:E; [|discriminate].
    apply Hint in E. destruct (has_frac r' || has_exp (skip_frac r'));
      [discriminate|]. intros [= _ <-]. simpl. lia.
  - destruct (scan_int_part (String c s)) as [[d r']|] eqn:E; [|discriminate].
    apply Hint in E. destruct (has_frac r' || has_exp (skip_frac r'));
      [discriminate|]. now intros [= _ <-].
Qed.

Lemma scan_atom_shorter (s r : string) (v : json) :
  scan_atom s = Ok (v, r) -> (String.length r < String.length s)%nat.
Proof.
  unfold scan_atom.
  destruct (strip_prefix "null" s) as [r1|] eqn:E1.
  { intros [= _ <-]. apply strip_prefix_length in E1. simpl in E1. lia. }
  destruct (strip_prefix "true" s) as [r2|] eqn:E2.
  { intros [= _ <-]. apply strip_prefix_length in E2. simpl in E2. lia. }
  destruct (strip_prefix "false" s) as [r3|] eqn:E3.
  { intros [= _ <-]. apply strip_prefix_length in E3. simpl in E3. lia. }
  destruct (strip_prefix "NaN" s); [discriminate|].
  destruct (strip_prefix "Infinity" s); [discriminate|].
  destruct (strip_prefix "-Infinity" s); [discriminate|].
  apply match_number_shorter.
Qed.

Lemma scan_once_eq (fuel : nat) (c : ascii) (s' : string) :
  scan_once (S fuel) (String c s')
  = if Ascii.eqb c dquote then
      bind (scanstring s') (fun kr => Ok (JStr (fst kr), snd kr))
    else if Ascii.eqb c "{" then
      match skip_ws s' with
      | String c1 r1 =>
          if Ascii.eqb c1 "}" then Ok (JObj [], r1)
          else
            bind (scan_members fuel (String c1 r1)) (fun pr =>
              Ok (JObj (dict_of_pairs (fst pr)), snd pr))
      | EmptyString =>
          Raise (ValueError
            "Expecting property name enclosed in double quotes")
      end
    else if Ascii.eqb c "[" then
      match skip_ws s' with
      | String c1 r1 =>
          if Ascii.eqb c1 "]" then Ok (JArr [], r1)
          else
            bind (scan_items fuel (String c1 r1)) (fun vr =>
              Ok (JArr (fst vr), snd vr))
      | EmptyString => Raise (ValueError "Expecting value")
      end
    else scan_atom (String c s').
Proof. reflexivity. Qed.

Lemma scan_items_eq (fuel : nat) (s : string) :
  scan_items (S fuel) s
  = bind (scan_once fuel s) (fun vr =>
      match skip_ws (snd vr) with
      | String c r =>
          if Ascii.eqb c "]" then Ok ([fst vr], r)
          else if Ascii.eqb c "," then
            bind (scan_items fuel (skip_ws r)) (fun vs =>
              Ok (fst vr :: fst vs, snd vs))
          else Raise (ValueError "Expecting ',' delimiter")
      | EmptyString => Raise (ValueError "Expecting ',' delimiter")
      end).
Proof. reflexivity. Qed.

Lemma scan_members_eq (fuel : nat) (c : ascii) (s' : string) :
  scan_members (S fuel) (String c s')
  = if Ascii.eqb c dquote then
      bind (scanstring s') (fun kr =>
        match skip_ws (snd kr) with
        | String c1 r1 =>
            if Ascii.eqb c1 ":" then
              bind (scan_once fuel (skip_ws r1)) (fun vr =>
                match skip_ws (snd vr) with
                | String c2 r2 =>
                    if Ascii.eqb c2 "}" then Ok ([(fst kr, fst vr)], r2)
                    else if Ascii.eqb c2 "," then
                      bind (scan_members fuel (skip_ws r2)) (fun ms =>
                        Ok ((fst kr, fst vr) :: fst ms, snd ms))
                    else Raise (ValueError "Expecting ',' delimiter")
                | EmptyString => Raise (ValueError "Expecting ',' delimiter")
                end)
            else Raise (ValueError "Expecting ':' delimiter")
        | EmptyString => Raise (ValueError "Expecting ':' delimiter")
        end)
    else
      Raise (ValueError "Expecting property name enclosed in double quotes").
Proof. reflexivity. Qed.

(** Whatever is read, the text that is left is shorter. *)
Lemma scan_shorter (fuel : nat) :
  (forall s v r, scan_once fuel s = Ok (v, r) ->
                 (String.length r < String.length s)%nat)
  /\ (forall s vs r, scan_items fuel s = Ok (vs, r) ->
                     (String.length r < String.length s)%nat)
  /\ (forall s ms r, scan_members fuel s = Ok (ms, r) ->
                     (String.length r < String.length s)%nat).
Proof.
  induction fuel as [|fuel (IHo & IHi & IHm)];
    [repeat split; intros; discriminate|].
  split; [|split].
  - intros [|c s'] v r; [discriminate|]. rewrite scan_once_eq.
    destruct (Ascii.eqb c dquote).
    { destruct (scanstring s') as [[k r']|e] eqn:E; [|discriminate].
      apply scanstring_shorter in E. intros [= _ <-]. simpl. lia. }
    pose proof (skip_ws_length s') as Hws.
    destruct (Ascii.eqb c "{").
    { destruct (skip_ws s') as [|c1 r1]; [discriminate|].
      destruct (Ascii.eqb c1 "}"); [intros [= _ <-]; simpl in *; lia|].
      destruct (scan_members fuel _) as [[ms r']|e] eqn:E; [|discriminate].
      apply IHm in E. intros [= _ <-]. simpl in *. lia. }
    destruct (Ascii.eqb c "[").
    { destruct (skip_ws s') as [|c1 r1]; [discriminate|].
      destruct (Ascii.eqb c1 "]"); [intros [= _ <-]; simpl in *; lia|].
      destruct (scan_items fuel _) as [[vs r']|e] eqn:E; [|discriminate].
      apply IHi in E. intros [= _ <-]. simpl in *. lia. }
    apply scan_atom_shorter.
  - intros s vs r. rewrite scan_items_eq.
    destruct (scan_once fuel s) as [[v r0]|e] eqn:E; [|discriminate].
    apply IHo in E. simpl. pose proof (skip_ws_length r0) as Hws.
    destruct (skip_ws r0) as [|c r1]; [discriminate|].
    destruct (Ascii.eqb c "]"); [intros [= _ <-]; simpl in *; lia|].
    destruct (Ascii.eqb c ","); [|discriminate].
    pose proof (skip_ws_length r1) as Hws1.
    destruct (scan_items fuel _) as [[vs' r']|e] eqn:E'; [|discriminate].
    apply IHi in E'. intros [= _ <-]. simpl in *. lia.
  - intros [|c s'] ms r; [discriminate|]. rewrite scan_members_eq.
    destruct (Ascii.eqb c dquote); [|discriminate].
    destruct (scanstring s') as [[k r0]|e] eqn:E; [|discriminate].
    apply scanstring_shorter in E. simpl.
    pose proof (skip_ws_length r0) as Hws.
    destruct (skip_ws r0) as [|c1 r1]; [discriminate|].
    destruct (Ascii.eqb c1 ":"); [|discriminate].
    pose proof (skip_ws_length r1) as Hws1.
    destruct (scan_once fuel _) as [[v r2]|e] eqn:E2; [|discriminate].
    apply IHo in E2. simpl. pose proof (skip_ws_length r2) as Hws2.
    destruct (skip_ws r2) as [|c2 r3]; [discriminate|].
    destruct (Ascii.eqb c2 "}"); [intros [= _ <-]; simpl in *; lia|].
    destruct (Ascii.eqb c2 ","); [|discriminate].
    pose proof (skip_ws_length r3) as Hws3.
    destruct (scan_members fuel _) as [[ms' r']|e] eqn:E'; [|discriminate].
    apply IHm in E'. intros [= _ <-]. simpl in *. lia.
Qed.

Lemma prepend_raise (c : ascii) (r : result (string * string)) (e : exn) :
  prepend c r = Raise e -> r = Raise e.
Proof. destruct r as [[k rest]|e']; simpl; [discriminate|congruence]. Qed.

Lemma scanstring_fuel (s : string) : scanstring s <> Raise (Unmodelled "fuel").
Proof.
  remember (String.length s) as n eqn:Hn. revert s Hn.
  induction n as [n IH] using lt_wf_ind. intros s Hn.
  destruct s as [|c s]; [discriminate|]. simpl scanstring. simpl in Hn.
  destruct (Ascii.eqb c dquote); [discriminate|].
  destruct (Ascii.eqb c backslash).
  - destruct s as [|e s]; [discriminate|]. simpl in Hn.
    destruct (Ascii.eqb e "u").
    + destruct s as [|h1 [|h2 [|h3 [|h4 s]]]]; try discriminate.
      simpl in Hn. destruct (hex4 h1 h2 h3 h4) as [m|]; [|discriminate].
      destruct (m <? 256)%N; [|discriminate].
      intros H. apply prepend_raise in H.
      apply (IH (String.length s)) in H; [exact H|lia|reflexivity].
    + destruct (unescape e) as [c'|]; [|discriminate].
      intros H. apply prepend_raise in H.
      apply (IH (String.length s)) in H; [exact H|lia|reflexivity].
  - destruct (N_of_ascii c <? 32)%N; [discriminate|].
    intros H. apply prepend_raise in H.
    apply (IH (String.length s)) in H; [exact H|lia|reflexivity].
Qed.

Lemma scan_atom_fuel (s : string) : scan_atom s <> Raise (Unmodelled "fuel").
Proof.
  unfold scan_atom.
  destruct (strip_prefix "null" s); [discriminate|].
  destruct (strip_prefix "true" s); [discriminate|].
  destruct (strip_prefix "false" s); [discriminate|].
  destruct (strip_prefix "NaN" s); [discriminate|].
  destruct (strip_prefix "Infinity" s); [discriminate|].
  destruct (strip_prefix "-Infinity" s); [discriminate|].
  unfold match_number. destruct s as [|c s]; [discriminate|].
  destruct (Ascii.eqb c "-").
  - destruct (scan_int_part s) as [[d r]|]; [|discriminate].
    destruct (has_frac r || has_exp (skip_frac r)); discriminate.
  - destruct (scan_int_part (String c s)) as [[d r]|]; [|discriminate].
    destruct (has_frac r || has_exp (skip_frac r)); discriminate.
Qed.

(** With twice the length of the text as fuel, and one or two more, no
    call runs out of it. *)
Lemma scan_fuel (fuel : nat) :
  (forall s, (2 * String.length s < fuel)%nat ->
             scan_once fuel s <> Raise (Unmodelled "fuel"))
  /\ (forall s, (2 * String.length s + 1 < fuel)%nat ->
                 scan_items fuel s <> Raise (Unmodelled "fuel"))
  /\ (forall s, (2 * String.length s + 1 < fuel)%nat ->
                 scan_members fuel s <> Raise (Unmodelled "fuel")).
Proof.
  induction fuel as [|fuel (IHo & IHi & IHm)];
    [repeat split; intros; lia|].
  destruct (scan_shorter fuel) as (Ho & Hi & Hm).
  split; [|split].
  - intros [|c s'] Hlen; [discriminate|]. rewrite scan_once_eq.
    simpl in Hlen.
    destruct (Ascii.eqb c dquote).
    { pose proof (scanstring_fuel s') as Hs.
      destruct (scanstring s') as [[k r']|e]; [discriminate|].
      simpl. congruence. }
    pose proof (skip_ws_length s') as Hws.
    destruct (Ascii.eqb c "{").
    { destruct (skip_ws s') as [|c1 r1]; [discriminate|].
      destruct (Ascii.eqb c1 "}"); [discriminate|].
      pose proof (IHm (String c1 r1)) as Hs.
      destruct (scan_members fuel _) as [[ms r']|e]; [discriminate|].
      simpl. intros [= ->]. apply Hs; [simpl in *; lia|reflexivity]. }
    destruct (Ascii.eqb c "[").
    { destruct (skip_ws s') as [|c1 r1]; [discriminate|].
      destruct (Ascii.eqb c1 "]"); [discriminate|].
      pose proof (IHi (String c1 r1)) as Hs.
      destruct (scan_items fuel _) as [[vs r']|e]; [discriminate|].
      simpl. intros [= ->]. apply Hs; [simpl in *; lia|reflexivity]. }
    apply scan_atom_fuel.
  - intros s Hlen. rewrite scan_items_eq.
    pose proof (IHo s) as Hs.
    destruct (scan_once fuel s) as [[v r0]|e] eqn:E.
    2:{ simpl. intros [= ->]. apply Hs; [lia|reflexivity]. }
    apply Ho in E. simpl. pose proof (skip_ws_length r0) as Hws.
    destruct (skip_ws r0) as [|c r1]; [discriminate|].
    destruct (Ascii.eqb c "]"); [discriminate|].
    destruct (Ascii.eqb c ","); [|discriminate].
    pose proof (skip_ws_length r1) as Hws1.
    pose proof (IHi (skip_ws r1)) as Hs'.
    destruct (scan_items fuel _) as [[vs' r']|e]; [discriminate|].
    simpl. intros [= ->]. apply Hs'; [simpl in *; lia|reflexivity].
  - intros [|c s'] Hlen; [discriminate|]. rewrite scan_members_eq.
    simpl in Hlen.
    destruct (Ascii.eqb c dquote); [|discriminate].
    pose proof (scanstring_fuel s') as Hk.
    destruct (scanstring s') as [[k r0]|e] eqn:E; [|simpl; congruence].
    apply scanstring_shorter in E. simpl.
    pose proof (skip_ws_length r0) as Hws.
    destruct (skip_ws r0) as [|c1 r1]; [discriminate|].
    destruct (Ascii.eqb c1 ":"); [|discriminate].
    pose proof (skip_ws_length r1) as Hws1.
    pose proof (IHo (skip_ws r1)) as Hv.
    destruct (scan_once fuel _) as [[v r2]|e] eqn:E2.
    2:{ simpl. intros [= ->]. apply Hv; [simpl in *; lia|reflexivity]. }
    apply Ho in E2. simpl. pose proof (skip_ws_length r2) as Hws2.
    destruct (skip_ws r2) as [|c2 r3]; [discriminate|].
    destruct (Ascii.eqb c2 "}"); [discriminate|].
    destruct (Ascii.eqb c2 ","); [|discriminate].
    pose proof (skip_ws_length r3) as Hws3.
    pose proof (IHm (skip_ws r3)) as Hs'.
    destruct (scan_members fuel _) as [[ms' r']|e]; [discriminate|].
    simpl. intros [= ->]. apply Hs'; [simpl in *; lia|reflexivity].
Qed.

(** [loads] decides every text: it never stops for lack of fuel. *)
Lemma loads_fuel (s : string) : loads s <> Raise (Unmodelled "fuel").
Proof.
  unfold loads. destruct (scan_fuel (S (2 * String.length s))) as (Ho & _).
  pose proof (skip_ws_length s) as Hws.
  specialize (Ho (skip_ws s) ltac:(lia)).
  destruct (scan_once _ (skip_ws s)) as [[v r]|e]; simpl.
  - now destruct (skip_ws r).
  - congruence.
Qed.

End JsonFacts.

(** ** UTF-8 and base64 are undone by their decoders *)
Module CodecFacts.
Import Py Codec.

Lemma N_of_byte_bounded (b : byte) : (N_of_byte b < 256)%N.
Proof. apply N_ascii_bounded. Qed.

Lemma N_of_byte_of_N (n : N) : (n < 256)%N -> N_of_byte (byte_of_N n) = n.
Proof.
  intros H. unfold N_of_byte, byte_of_N.
  now rewrite ascii_of_byte_of_ascii, N_ascii_embedding.
Qed.

Lemma byte_of_N_of_byte (b : byte) : byte_of_N (N_of_byte b) = b.
Proof.
  unfold N_of_byte, byte_of_N.
  now rewrite ascii_N_embedding, byte_of_ascii_of_byte.
Qed.

(** *** UTF-8 *)

Lemma utf8_decode_char (c : ascii) (s : string) :
  utf8_decode (utf8_encode (String c s)) = push c (utf8_decode (utf8_encode s)).
Proof.
  destruct c as [[|] [|] [|] [|] [|] [|] [|] [|]]; reflexivity.
Qed.

(** [s.encode("utf-8").decode("utf-8")] is [s]. *)
Lemma utf8_decode_encode (s : string) : utf8_decode (utf8_encode s) = Ok s.
Proof.
  induction s as [|c s IH]; [reflexivity|].
  now rewrite utf8_decode_char, IH.
Qed.

(** Bytes below 0x80 decode to a text that encodes to the same bytes. *)
Lemma utf8_ascii (bs : list byte) :
  Forall (fun b => (N_of_byte b < 128)%N) bs ->
  exists s, utf8_decode bs = Ok s /\ utf8_encode s = bs.
Proof.
  induction 1 as [|b bs Hb _ [s [Hd He]]].
  - now exists EmptyString.
  - exists (String (ascii_of_N (N_of_byte b)) s). split.
    + simpl. apply N.ltb_lt in Hb. now rewrite Hb, Hd.
    + simpl. rewrite N_ascii_embedding by (pose proof (N_of_byte_bounded b); lia).
      apply N.ltb_lt in Hb. now rewrite Hb, byte_of_N_of_byte, He.
Qed.

(** *** base64 *)

Lemma lt_64 (v : N) : N.shiftr v 6 = 0%N -> (v < 64)%N.
Proof.
  rewrite N.shiftr_div_pow2. intros H.
  apply N.div_small_iff in H; [exact H|discriminate].
Qed.

(** The alphabet: every six-bit value has a character, which is not the
    padding character and which [a2b] maps back. *)
Lemma a2b_b2a (v : N) :
  (v < 64)%N -> a2b (b2a v) = Some v /\ Byte.eqb (b2a v) pad = false.
Proof.
  intros H. destruct v as [|p]; [split; reflexivity|].
  do 6 (try destruct p as [p|p|]); try (split; reflexivity); exfalso; lia.
Qed.

Lemma b2a_ascii (v : N) : (N_of_byte (b2a v) < 128)%N.
Proof.
  unfold b2a.
  destruct (N.ltb_spec v 26); [rewrite N_of_byte_of_N; lia|].
  destruct (N.ltb_spec v 52); [rewrite N_of_byte_of_N; lia|].
  destruct (N.ltb_spec v 62); [rewrite N_of_byte_of_N; lia|].
  destruct (N.eqb_spec v 62); rewrite N_of_byte_of_N; lia.
Qed.

(** What one byte contributes to its two neighbouring characters. *)
Lemma byte_bits (x : byte) :
  let a := N_of_byte x in
  N.lor (N.shiftl (N.shiftr a 2) 2) (N.land a 3) = a
  /\ N.lor (N.shiftl (N.shiftr a 4) 4) (N.land a 15) = a
  /\ N.lor (N.shiftl (N.shiftr a 6) 6) (N.land a 63) = a
  /\ N.land (N.shiftl (N.land a 3) 4) 15 = 0%N
  /\ N.land (N.shiftl (N.land a 15) 2) 3 = 0%N
  /\ N.land (N.shiftr a 4) 15 = N.shiftr a 4
  /\ N.land (N.shiftr a 6) 3 = N.shiftr a 6
  /\ N.shiftr (N.shiftl (N.land a 3) 4) 6 = 0%N
  /\ N.shiftr (N.shiftl (N.land a 15) 2) 6 = 0%N
  /\ N.shiftr a 8 = 0%N.
Proof. destruct x; repeat split; reflexivity. Qed.

Lemma shiftr_byte (x : byte) (n : N) :
  N.shiftr (N_of_byte x) (8 + n) = 0%N.
Proof.
  rewrite <- N.shiftr_shiftr.
  destruct (byte_bits x) as (_ & _ & _ & _ & _ & _ & _ & _ & _ & ->).
  apply N.shiftr_0_l.
Qed.

Lemma sextet0_lt (x : byte) : (sextet0 (N_of_byte x) < 64)%N.
Proof.
  apply lt_64. unfold sextet0. rewrite N.shiftr_shiftr.
  exact (shiftr_byte x 0).
Qed.

Lemma sextet1_lt (x y : byte) :
  (sextet1 (N_of_byte x) (N_of_byte y) < 64)%N.
Proof.
  apply lt_64. unfold sextet1. rewrite N.shiftr_lor, N.shiftr_shiftr.
  destruct (byte_bits x) as (_ & _ & _ & _ & _ & _ & _ & -> & _).
  change (4 + 6)%N with (8 + 2)%N. now rewrite shiftr_byte.
Qed.

Lemma sextet2_lt (y z : byte) :
  (sextet2 (N_of_byte y) (N_of_byte z) < 64)%N.
Proof.
  apply lt_64. unfold sextet2. rewrite N.shiftr_lor, N.shiftr_shiftr.
  destruct (byte_bits y) as (_ & _ & _ & _ & _ & _ & _ & _ & -> & _).
  change (6 + 6)%N with (8 + 4)%N. now rewrite shiftr_byte.
Qed.

Lemma sextet3_lt (z : byte) : (sextet3 (N_of_byte z) < 64)%N.
Proof. destruct z; reflexivity. Qed.

Lemma sextet1_pad_lt (x : byte) :
  (N.shiftl (N.land (N_of_byte x) 3) 4 < 64)%N.
Proof. destruct x; reflexivity. Qed.

Lemma sextet2_pad_lt (y : byte) :
  (N.shiftl (N.land (N_of_byte y) 15) 2 < 64)%N.
Proof. destruct y; reflexivity. Qed.

(** The three bytes come back from the four values. *)
Lemma first_byte (x y : byte) :
  N.lor (N.shiftl (sextet0 (N_of_byte x)) 2)
        (N.shiftr (sextet1 (N_of_byte x) (N_of_byte y)) 4)
  = N_of_byte x.
Proof.
  unfold sextet0, sextet1. rewrite N.shiftr_lor, N.shiftr_shiftr.
  rewrite N.shiftr_shiftl_l by reflexivity.
  change (4 - 4)%N with 0%N. rewrite N.shiftl_0_r.
  change (4 + 4)%N with (8 + 0)%N. rewrite shiftr_byte, N.lor_0_r.
  now destruct (byte_bits x) as (-> & _).
Qed.

Lemma second_byte (x y z : byte) :
  N.lor (N.shiftl (N.land (sextet1 (N_of_byte x) (N_of_byte y)) 15) 4)
        (N.shiftr (sextet2 (N_of_byte y) (N_of_byte z)) 2)
  = N_of_byte y.
Proof.
  unfold sextet1, sextet2.
  rewrite N.land_lor_distr_l, N.shiftr_lor, N.shiftr_shiftr.
  rewrite N.shiftr_shiftl_l by reflexivity.
  change (2 - 2)%N with 0%N. rewrite N.shiftl_0_r.
  change (6 + 2)%N with (8 + 0)%N. rewrite shiftr_byte, N.lor_0_r.
  destruct (byte_bits x) as (_ & _ & _ & -> & _).
  destruct (byte_bits y) as (_ & Hy & _ & _ & _ & -> & _).
  now rewrite N.lor_0_l.
Qed.

Lemma third_byte (y z : byte) :
  N.lor (N.shiftl (N.land (sextet2 (N_of_byte y) (N_of_byte z)) 3) 6)
        (sextet3 (N_of_byte z))
  = N_of_byte z.
Proof.
  unfold sextet2, sextet3. rewrite N.land_lor_distr_l.
  destruct (byte_bits y) as (_ & _ & _ & _ & -> & _).
  destruct (byte_bits z) as (_ & _ & Hz & _ & _ & _ & -> & _).
  now rewrite N.lor_0_l.
Qed.

(** One group of four characters, and the two padded endings. *)
Lemma a2b_base64_group (v0 v1 v2 v3 : N) (rest : list byte) :
  (v0 < 64)%N -> (v1 < 64)%N -> (v2 < 64)%N -> (v3 < 64)%N ->
  a2b_base64 (b2a v0 :: b2a v1 :: b2a v2 :: b2a v3 :: rest) 0 0 0
  = emit (byte_of_N (N.lor (N.shiftl v0 2) (N.shiftr v1 4)))
      (emit (byte_of_N (N.lor (N.shiftl (N.land v1 15) 4) (N.shiftr v2 2)))
         (emit (byte_of_N (N.lor (N.shiftl (N.land v2 3) 6) v3))
            (a2b_base64 rest 0 0 0))).
Proof.
  intros H0 H1 H2 H3.
  destruct (a2b_b2a v0 H0) as [E0 P0]. destruct (a2b_b2a v1 H1) as [E1 P1].
  destruct (a2b_b2a v2 H2) as [E2 P2]. destruct (a2b_b2a v3 H3) as [E3 P3].
  cbn [a2b_base64]. rewrite P0, E0. cbn [a2b_base64]. rewrite P1, E1.
  cbn [a2b_base64]. rewrite P2, E2. cbn [a2b_base64]. rewrite P3, E3.
  reflexivity.
Qed.

Lemma a2b_base64_two_pads (v0 v1 : N) :
  (v0 < 64)%N -> (v1 < 64)%N ->
  a2b_base64 [b2a v0; b2a v1; pad; pad] 0 0 0
  = Ok [byte_of_N (N.lor (N.shiftl v0 2) (N.shiftr v1 4))].
Proof.
  intros H0 H1.
  destruct (a2b_b2a v0 H0) as [E0 P0]. destruct (a2b_b2a v1 H1) as [E1 P1].
  cbn [a2b_base64]. rewrite P0, E0. cbn [a2b_base64]. rewrite P1, E1.
  reflexivity.
Qed.

Lemma a2b_base64_one_pad (v0 v1 v2 : N) :
  (v0 < 64)%N -> (v1 < 64)%N -> (v2 < 64)%N ->
  a2b_base64 [b2a v0; b2a v1; b2a v2; pad] 0 0 0
  = Ok [byte_of_N (N.lor (N.shiftl v0 2) (N.shiftr v1 4));
        byte_of_N (N.lor (N.shiftl (N.land v1 15) 4) (N.shiftr v2 2))].
Proof.
  intros H0 H1 H2.
  destruct (a2b_b2a v0 H0) as [E0 P0]. destruct (a2b_b2a v1 H1) as [E1 P1].
  destruct (a2b_b2a v2 H2) as [E2 P2].
  cbn [a2b_base64]. rewrite P0, E0. cbn [a2b_base64]. rewrite P1, E1.
  cbn [a2b_base64]. rewrite P2, E2. reflexivity.
Qed.

(** [base64.b64decode(base64.b64encode(bs))] is [bs]. *)
Lemma b64decode_b64encode (bs : list byte) :
  b64decode (b64encode bs) = Ok bs.
Proof.
  unfold b64decode.
  assert (H : forall n bs, (length bs <= n)%nat ->
              a2b_base64 (b64encode bs) 0 0 0 = Ok bs);
    [|now apply (H (length bs))].
  clear bs. induction n as [|n IH]; intros bs Hn.
  - destruct bs; [reflexivity|simpl in Hn; lia].
  - destruct bs as [|x [|y [|z r]]]; [reflexivity| | |].
    + cbn [b64encode].
      pose proof (first_byte x "000"%byte) as Hx.
      unfold sextet0, sextet1 in Hx.
      change (N.shiftr (N_of_byte "000") 4) with 0%N in Hx.
      rewrite N.lor_0_r in Hx.
      rewrite a2b_base64_two_pads;
        [|apply sextet0_lt|apply sextet1_pad_lt].
      now rewrite Hx, byte_of_N_of_byte.
    + cbn [b64encode].
      pose proof (first_byte x y) as Hx.
      pose proof (second_byte x y "000"%byte) as Hy.
      unfold sextet0, sextet1, sextet2 in Hx, Hy.
      change (N.shiftr (N_of_byte "000") 6) with 0%N in Hy.
      rewrite N.lor_0_r in Hy.
      rewrite a2b_base64_one_pad;
        [|apply sextet0_lt|apply sextet1_lt|apply sextet2_pad_lt].
      now rewrite Hx, Hy, !byte_of_N_of_byte.
    + cbn [b64encode].
      rewrite a2b_base64_group;
        [|apply sextet0_lt|apply sextet1_lt|apply sextet2_lt|apply sextet3_lt].
      pose proof (first_byte x y) as Hx.
      pose proof (second_byte x y z) as Hy.
      pose proof (third_byte y z) as Hz.
      unfold sextet0, sextet1, sextet2, sextet3 in Hx, Hy, Hz.
      rewrite Hx, Hy, Hz, !byte_of_N_of_byte.
      rewrite IH by (simpl in Hn; lia). reflexivity.
Qed.

(** The characters of a base64 text are ASCII. *)
Lemma b64encode_ascii (bs : list byte) :
  Forall (fun b => (N_of_byte b < 128)%N) (b64encode bs).
Proof.
  assert (Hpad : (N_of_byte pad < 128)%N) by reflexivity.
  assert (H : forall n bs, (length bs <= n)%nat ->
              Forall (fun b => (N_of_byte b < 128)%N) (b64encode bs));
    [|now apply (H (length bs))].
  clear bs. induction n as [|n IH]; intros bs Hn.
  - destruct bs; [constructor|simpl in Hn; lia].
  - destruct bs as [|x [|y [|z r]]]; cbn [b64encode];
      repeat (apply List.Forall_cons; [first [apply b2a_ascii|exact Hpad]|]);
      try apply List.Forall_nil.
    apply IH. simpl in Hn. lia.
Qed.

End CodecFacts.

(** ** Equality of values *)
Module PyFacts.
Import Py.



End PyFacts.

(** ** The claim about the pagination token *)
Module HelpersClaims.
Import Py Helpers.
Local Open Scope string_scope.


(** Decoding a token undoes the three steps of the encoding. *)
Lemma decode_encoded (j : json) (token : string) :
  wf_json j ->
  Codec.utf8_encode token
  = Codec.b64encode (Codec.utf8_encode (Json.dumps j)) ->
  decode_pagination_token token = Ok j.
Proof.
  intros Hwf Htoken. unfold decode_pagination_token.
  rewrite Htoken, CodecFacts.b64decode_b64encode. simpl bind.
  rewrite CodecFacts.utf8_decode_encode. simpl bind.
  now rewrite JsonFacts.loads_dumps.
Qed.



(** The example of the docstring of [encode_pagination_token]. *)
Example encode_docstring_example :
  encode_pagination_token
    (JObj [("id", JStr "123"); ("timestamp", JInt 1234567890)])
  = Ok "eyJpZCI6ICIxMjMiLCAidGltZXN0YW1wIjogMTIzNDU2Nzg5MH0=".
Proof. vm_compute. reflexivity. Qed.

(** The example of the docstring of [decode_pagination_token]. *)
Example decode_docstring_example :
  decode_pagination_token "eyJpZCI6ICIxMjMifQ==" = Ok (JObj [("id", JStr "123")]).
Proof. vm_compute. reflexivity. Qed.

End HelpersClaims.

(** ** What a call does to the cache and to the network *)
Module EffectFacts.
Import Py Cognito ResolverFacts VerifierFacts.
Local Open Scope string_scope.

Section Effects.
Variable w : world.

(** The three ways a resolver call can go. *)
Lemma get_jwks_cases (region user_pool_id : option string) (st st' : state)
    (res : result json) :
  get_jwks w region user_pool_id st = (res, st') ->
  (jwks_cache st <> JNull /\ st' = st /\ res = Ok (jwks_cache st))
  \/ (jwks_cache st = JNull
      /\ effective_user_pool_id w user_pool_id = ""
      /\ st' = st /\ res = Raise (ValueError msg_user_pool_id_required))
  \/ (jwks_cache st = JNull
      /\ effective_user_pool_id w user_pool_id <> ""
      /\ requests_sent st'
         = (requests_sent st
            ++ [jwks_url (effective_region w region)
                  (effective_user_pool_id w user_pool_id)])%list
      /\ match res with
         | Ok j => jwks_cache st' = j
         | Raise _ => jwks_cache st' = JNull
         end).
Proof.
  unfold effective_region, effective_user_pool_id.
  unfold get_jwks, mbind, read_cache, http_get, check_status, lift,
    write_cache, raise, ret.
  destruct (jwks_cache st) eqn:Hc;
    try (intros [= <- <-]; left; split; [discriminate|split; reflexivity]).
  intros H. right. revert H.
  destruct (String.eqb_spec
              (or_default user_pool_id
                 (environ_get w "COGNITO_USER_POOL_ID" "")) "") as [Hp|Hp].
  - intros [= <- <-]. left. now repeat split.
  - intros H. right. split; [reflexivity|]. split; [exact Hp|]. revert H.
    destruct (requests_get w _ _ _) as [resp|e]; cbn.
    + destruct (raise_for_status resp); cbn.
      * intros [= <- <-]. now split.
      * destruct (response_json resp); cbn; intros [= <- <-]; now split.
    + intros [= <- <-]. now split.
Qed.

(** The configuration [validate_jwt_token] hands to the resolver resolves
    to itself. *)
Lemma effective_region_idem (region : option string) :
  effective_region w (Some (effective_region w region))
  = effective_region w region.
Proof. apply or_default_idem. Qed.

Lemma effective_user_pool_id_idem (user_pool_id : option string) :
  effective_user_pool_id w (Some (effective_user_pool_id w user_pool_id))
  = effective_user_pool_id w user_pool_id.
Proof. apply or_default_idem. Qed.

(** The [try] block changes the state only through the resolver. *)
Lemma checked_claims_state (token r p a : string) (st : state) :
  snd (checked_claims w token r p a st)
  = snd (get_jwks w (Some r) (Some p) st).
Proof.
  unfold checked_claims, mbind.
  destruct (get_jwks w _ _ st) as [[jwks|e] st1]; [|reflexivity].
  unfold lift at 1. destruct (get_unverified_header w token); [|reflexivity].
  unfold lift at 1. destruct (key_list jwks); [|reflexivity].
  unfold lift at 1. destruct (scan_keys _ _) as [key|]; [|reflexivity].
  destruct (negb (truthy key)); [reflexivity|].
  unfold lift, ret. now destruct (jwt_decode w _ _ _ _ _).
Qed.

(** The [except] clauses leave the state alone. *)
Lemma try_except_state (token r p a : string) (st : state) :
  snd (try_except (checked_claims w token r p a) reclassify st)
  = snd (checked_claims w token r p a st).
Proof.
  unfold try_except.
  destruct (checked_claims w token r p a st) as [[c|e] st']; [reflexivity|].
  now destruct e.
Qed.

(** A call either stops at the header and configuration checks, with the
    state as it was, or it is the [try] block run on the header's token and
    the effective configuration. *)
Lemma validate_cases (ev : event)
    (region user_pool_id app_client_id : option string) (st : state) :
  (snd (validate_jwt_token w ev region user_pool_id app_client_id st) = st
   /\ exists e,
        fst (validate_jwt_token w ev region user_pool_id app_client_id st)
        = Raise e
        /\ (e = UnauthorizedError msg_missing_header
            \/ e = UnauthorizedError msg_malformed_header
            \/ e = ValueError msg_user_pool_id_required
            \/ e = ValueError msg_app_client_id_required))
  \/ exists token,
       reaches_try w ev region user_pool_id app_client_id token
         (effective_region w region) (effective_user_pool_id w user_pool_id)
         (effective_app_client_id w app_client_id)
       /\ validate_jwt_token w ev region user_pool_id app_client_id st
          = try_except
              (checked_claims w token (effective_region w region)
                 (effective_user_pool_id w user_pool_id)
                 (effective_app_client_id w app_client_id))
              reclassify st.
Proof.
  unfold validate_jwt_token.
  destruct (find_auth_header ev) as [h|] eqn:Hh; cbn [is_falsy];
    [|left; split; [reflexivity|]; eexists; split; [reflexivity|]; now left].
  destruct (String.eqb_spec h "") as [He|He];
    [left; split; [reflexivity|]; eexists; split; [reflexivity|]; now left|].
  cbn [default from_option id].
  fold (effective_region w region).
  fold (effective_user_pool_id w user_pool_id).
  fold (effective_app_client_id w app_client_id).
  destruct (split h) as [|scheme [|token [|x parts]]] eqn:Hs;
    try (left; split; [reflexivity|]; eexists; split; [reflexivity|];
         right; now left).
  destruct (String.eqb (lower scheme) "bearer") eqn:Hb; cbn [negb];
    [|left; split; [reflexivity|]; eexists; split; [reflexivity|];
      right; now left].
  destruct (String.eqb_spec (effective_user_pool_id w user_pool_id) "")
    as [Hp|Hp];
    [left; split; [reflexivity|]; eexists; split; [reflexivity|];
     right; right; now left|].
  destruct (String.eqb_spec (effective_app_client_id w app_client_id) "")
    as [Ha|Ha];
    [left; split; [reflexivity|]; eexists; split; [reflexivity|];
     right; right; now right|].
  right. exists token. split; [|reflexivity].
  split; [|now repeat split].
  exists h. split; [exact Hh|]. split; [exact He|].
  unfold bearer_token. now rewrite Hs, Hb.
Qed.

(** What an error that leaves the [try] block says. *)
Lemma try_block_error (token r p a : string) (st : state) (e : exn) :
  raises_no_auth_error w ->
  fst (try_except (checked_claims w token r p a) reclassify st) = Raise e ->
  e = UnauthorizedError msg_invalid_token
  \/ e = UnauthorizedError msg_invalid_or_expired
  \/ e = UnauthorizedError msg_validation_failed.
Proof.
  intros Hw. unfold try_except.
  destruct (checked_claims w token r p a st) as [[c|e'] st'] eqn:Ec;
    [discriminate|].
  destruct e'; cbn; intros [= <-]; auto.
  apply (checked_claims_auth_error _ _ _ _ _ _ _ _ Hw) in Ec. subst msg.
  now left.
Qed.

(** The scan returns [None] or an entry of the list whose key id
    matches. *)
Lemma scan_keys_found (keys : list json) (kid key : json) :
  scan_keys keys kid = Ok key ->
  key = JNull \/ (In key keys /\ kid_matches kid key).
Proof.
  induction keys as [|x keys IH]; cbn.
  - intros [= <-]. now left.
  - destruct (subscript x "kid") as [v|e] eqn:Ev; cbn; [|discriminate].
    destruct (py_eq v kid) eqn:Eq.
    + intros [= <-]. right. split; [now left|]. now exists v.
    + intros H. destruct (IH H) as [->|[Hin Hm]]; [now left|].
      right. split; [now right|exact Hm].
Qed.

(** A [try] block that returns went through every step. *)
Lemma checked_claims_ok (token r p a : string) (st st' : state)
    (claims : dict) :
  checked_claims w token r p a st = (Ok claims, st') ->
  exists jwks kid keys key,
    get_jwks w (Some r) (Some p) st = (Ok jwks, st')
    /\ token_kid w token = Ok kid
    /\ key_list jwks = Ok keys
    /\ scan_keys keys kid = Ok key
    /\ truthy key = true
    /\ jwt_decode w token key ["RS256"] a (issuer_url r p) = Ok claims.
Proof.
  unfold checked_claims, mbind, token_kid.
  destruct (get_jwks w _ _ st) as [[jwks|e] st1] eqn:Ej; [|discriminate].
  unfold lift at 1.
  destruct (get_unverified_header w token) as [hdr|e]; [|discriminate].
  unfold lift at 1.
  destruct (key_list jwks) as [keys|e] eqn:El; [|discriminate].
  unfold lift at 1.
  destruct (scan_keys keys _) as [key|e] eqn:Es; [|discriminate].
  destruct (truthy key) eqn:Et; cbn [negb]; [|discriminate].
  unfold lift, ret.
  destruct (jwt_decode w _ _ _ _ _) as [c|e] eqn:Ed; [|discriminate].
  intros [= <- <-].
  exists jwks, (default JNull (dict_get "kid" hdr)), keys, key.
  split; [reflexivity|]. split; [reflexivity|]. split; [exact El|].
  split; [exact Es|]. split; [exact Et|exact Ed].
Qed.

(** A key set that can be iterated is not [None]. *)
Lemma key_list_not_null (jwks : json) (keys : list json) :
  key_list jwks = Ok keys -> jwks <> JNull.
Proof. now destruct jwks. Qed.

(** Indexing and iterating raise [KeyError] or [TypeError] only. *)
Lemma key_list_error (jwks : json) (e : exn) :
  key_list jwks = Raise e ->
  (exists k, e = KeyError k) \/ (exists m, e = TypeError m).
Proof.
  unfold key_list, subscript, iterate.
  destruct jwks as [| | | | |d]; cbn; try (intros [= <-]; right; eauto).
  destruct (dict_get "keys" d) as [v|]; cbn; [|intros [= <-]; left; eauto].
  destruct v; try discriminate; intros [= <-]; right; eauto.
Qed.

End Effects.
End EffectFacts.

(** ** Effects and soundness of [get_jwks] and [validate_jwt_token] *)
Module CognitoEffects.
Import Py Cognito Examples ResolverFacts VerifierFacts EffectFacts.
Local Open Scope string_scope.

(** A call of [get_jwks] that returns leaves what it returned in the cache; a
    call that raises found the cache empty and leaves it empty, so a failure
    is never cached and the next call tries again. *)
Theorem resolver_caches_what_it_returns (w : world)
    (region user_pool_id : option string) (st st' : state)
    (res : result json) :
  get_jwks w region user_pool_id st = (res, st') ->
  match res with
  | Ok j => jwks_cache st' = j
  | Raise _ => jwks_cache st = JNull /\ jwks_cache st' = JNull
  end.
Proof.
  intros H.
  destruct (get_jwks_cases w _ _ _ _ _ H)
    as [[Hc [-> ->]]|[[Hc [_ [-> ->]]]|[Hc [_ [_ Hres]]]]].
  - reflexivity.
  - now split.
  - destruct res; [exact Hres|now split].
Qed.

Lemma resolver_caches_what_it_returns_witness :
  jwks_cache fresh = JNull
  /\ jwks_cache
       {| jwks_cache := JNull;
          requests_sent := [jwks_url "us-west-2" "test-pool"] |} = JNull.
Proof.
  apply (resolver_caches_what_it_returns offline_world (Some "us-west-2")
           (Some "test-pool") fresh
           {| jwks_cache := JNull;
              requests_sent := [jwks_url "us-west-2" "test-pool"] |}
           (Raise (RequestException "connection refused"))).
  reflexivity.
Defined.

(** A call that fails with one of the two header errors or with a
    [ValueError] has sent no request and has left the cache as it was. *)
Theorem header_and_config_errors_send_nothing (w : world) (ev : event)
    (region user_pool_id app_client_id : option string) (st : state)
    (e : exn) :
  raises_no_auth_error w ->
  fst (validate_jwt_token w ev region user_pool_id app_client_id st)
  = Raise e ->
  e = UnauthorizedError msg_missing_header
  \/ e = UnauthorizedError msg_malformed_header
  \/ (exists m, e = ValueError m) ->
  snd (validate_jwt_token w ev region user_pool_id app_client_id st) = st.
Proof.
  intros Hw He Hkind.
  destruct (validate_cases w ev region user_pool_id app_client_id st)
    as [[Hst _]|[token [_ Heq]]]; [exact Hst|].
  exfalso. rewrite Heq in He. apply (try_block_error w _ _ _ _ _ _ Hw) in He.
  destruct He as [-> | [-> | ->]];
    destruct Hkind as [Hk|[Hk|[m Hk]]]; discriminate Hk.
Qed.

Lemma header_and_config_errors_send_nothing_witness :
  snd (validate_jwt_token test_world (event_of "Authorization" "Bearer")
         (Some "us-west-2") (Some "test-pool") (Some "test-client") fresh)
  = fresh.
Proof.
  apply (header_and_config_errors_send_nothing test_world
           (event_of "Authorization" "Bearer")
           (Some "us-west-2") (Some "test-pool") (Some "test-client") fresh
           (UnauthorizedError msg_malformed_header)).
  - split; [|split; [|split]].
    + intros n url t m. discriminate.
    + intros n url t resp m [= <-]. split; discriminate.
    + intros token m. discriminate.
    + intros token key algorithms audience issuer m. cbn.
      destruct (String.eqb token "valid-token-123"); discriminate.
  - reflexivity.
  - right. left. reflexivity.
Defined.

(** A call sends at most one request, and none when the cache is populated:
    the state after it is the state before it, or the cache was empty and
    the log has grown by the key set URL of the effective region and user
    pool id. *)
Theorem validate_sends_at_most_one_request (w : world) (ev : event)
    (region user_pool_id app_client_id : option string) (st : state) :
  snd (validate_jwt_token w ev region user_pool_id app_client_id st) = st
  \/ (jwks_cache st = JNull
      /\ requests_sent
           (snd (validate_jwt_token w ev region user_pool_id app_client_id st))
         = (requests_sent st
            ++ [jwks_url (effective_region w region)
                  (effective_user_pool_id w user_pool_id)])%list).
Proof.
  destruct (validate_cases w ev region user_pool_id app_client_id st)
    as [[Hst _]|[token [_ Heq]]]; [now left|].
  rewrite Heq, try_except_state, checked_claims_state.
  destruct (get_jwks w _ _ st) as [res st1] eqn:Ej.
  destruct (get_jwks_cases w _ _ _ _ _ Ej)
    as [[_ [-> _]]|[[_ [_ [-> _]]]|[Hc [_ [Hreq _]]]]];
    [now left|now left|].
  right. split; [exact Hc|]. cbn [snd].
  now rewrite Hreq, effective_region_idem, effective_user_pool_id_idem.
Qed.

(** A call that passes the header and configuration checks with an empty
    cache sends the request for the key set before it looks at the token:
    whatever the token and whatever the outcome, the log grows by the key
    set URL. *)
Theorem checked_call_with_empty_cache_fetches (w : world) (ev : event)
    (region user_pool_id app_client_id : option string)
    (token r p a : string) (st : state) :
  reaches_try w ev region user_pool_id app_client_id token r p a ->
  jwks_cache st = JNull ->
  requests_sent
    (snd (validate_jwt_token w ev region user_pool_id app_client_id st))
  = (requests_sent st ++ [jwks_url r p])%list.
Proof.
  intros Hreach Hc. pose proof Hreach as (_ & Hr & Hp & _ & Hne & _).
  rewrite (validate_enters_try w _ _ _ _ _ _ _ _ st Hreach).
  rewrite try_except_state, checked_claims_state.
  destruct (get_jwks w _ _ st) as [res st1] eqn:Ej.
  destruct (get_jwks_cases w _ _ _ _ _ Ej)
    as [(Hc' & _)|[(_ & Hp' & _)|(_ & _ & Hreq & _)]].
  - now contradiction Hc'.
  - unfold effective_user_pool_id in Hp'.
    rewrite (or_default_explicit p _ Hne) in Hp'. now contradiction Hne.
  - cbn [snd]. rewrite Hreq. unfold effective_user_pool_id at 1.
    rewrite (or_default_explicit p _ Hne).
    rewrite Hr at 1. now rewrite effective_region_idem, <- Hr.
Qed.

Lemma checked_call_with_empty_cache_fetches_witness :
  requests_sent
    (snd (validate_jwt_token offline_world
            (event_of "Authorization" "Bearer not-even-a-token")
            (Some "us-west-2") (Some "test-pool") (Some "test-client") fresh))
  = [jwks_url "us-west-2" "test-pool"].
Proof.
  apply (checked_call_with_empty_cache_fetches offline_world
           (event_of "Authorization" "Bearer not-even-a-token")
           (Some "us-west-2") (Some "test-pool") (Some "test-client")
           "not-even-a-token" "us-west-2" "test-pool" "test-client" fresh).
  - split; [|repeat split; discriminate].
    exists "Bearer not-even-a-token".
    split; [reflexivity|]. split; [discriminate|reflexivity].
  - reflexivity.
Defined.

(** Claims are returned only for a verified token: when a call returns
    claims, the header held a bearer token, the key set in the cache after
    the call lists a key whose key id equals the one the token names, it is
    the key the scan selects, and [jwt.decode] returned these claims for the
    token under that key, with algorithm RS256, the effective app client id
    as audience and the issuer URL of the effective region and user pool
    id. *)
Theorem returned_claims_were_verified (w : world) (ev : event)
    (region user_pool_id app_client_id : option string) (st st' : state)
    (claims : dict) :
  validate_jwt_token w ev region user_pool_id app_client_id st
  = (Ok claims, st') ->
  exists h token kid keys key,
    find_auth_header ev = Some h
    /\ bearer_token h = Some token
    /\ token_kid w token = Ok kid
    /\ key_list (jwks_cache st') = Ok keys
    /\ In key keys
    /\ kid_matches kid key
    /\ scan_keys keys kid = Ok key
    /\ jwt_decode w token key ["RS256"]
         (effective_app_client_id w app_client_id)
         (issuer_url (effective_region w region)
            (effective_user_pool_id w user_pool_id))
       = Ok claims.
Proof.
  intros H.
  destruct (validate_cases w ev region user_pool_id app_client_id st)
    as [[_ [e [He _]]]|[token [Hreach Heq]]].
  { rewrite H in He. discriminate He. }
  destruct Hreach as [[h (Hh & _ & Hb)] _].
  rewrite Heq in H. unfold try_except in H.
  destruct (checked_claims w token _ _ _ st) as [[c|e] st1] eqn:Ec.
  2:{ destruct (reclassify_unauthorized (A := dict) e st1) as [m Hm].
      rewrite Hm in H. discriminate H. }
  injection H as -> ->.
  apply checked_claims_ok in Ec
    as (jwks & kid & keys & key & Hj & Hk & Hl & Hs & Ht & Hd).
  apply get_jwks_populates in Hj; [|exact (key_list_not_null _ _ Hl)].
  exists h, token, kid, keys, key. rewrite Hj.
  destruct (scan_keys_found _ _ _ Hs) as [->|[Hin Hm]]; [discriminate Ht|].
  now repeat split.
Qed.

Lemma returned_claims_were_verified_witness :
  exists h token kid keys key,
    find_auth_header (event_of "Authorization" "Bearer valid-token-123")
    = Some h
    /\ bearer_token h = Some token
    /\ token_kid test_world token = Ok kid
    /\ key_list (jwks_cache warm) = Ok keys
    /\ In key keys
    /\ kid_matches kid key
    /\ scan_keys keys kid = Ok key
    /\ jwt_decode test_world token key ["RS256"]
         (effective_app_client_id test_world (Some "test-client-id"))
         (issuer_url (effective_region test_world (Some "us-west-2"))
            (effective_user_pool_id test_world (Some "test-pool-id")))
       = Ok test_claims.
Proof.
  apply (returned_claims_were_verified test_world
           (event_of "Authorization" "Bearer valid-token-123")
           (Some "us-west-2") (Some "test-pool-id") (Some "test-client-id")
           fresh warm test_claims).
  reflexivity.
Defined.

(** A call that returns claims leaves a key set in the cache, and from
    then on no call of [validate_jwt_token] sends a request or changes the
    cache, whatever its event and arguments. *)
Theorem successful_call_warms_cache (w : world) (ev : event)
    (region user_pool_id app_client_id : option string) (st st' : state)
    (claims : dict) :
  validate_jwt_token w ev region user_pool_id app_client_id st
  = (Ok claims, st') ->
  jwks_cache st' <> JNull
  /\ forall ev' region' user_pool_id' app_client_id',
       snd (validate_jwt_token w ev' region' user_pool_id' app_client_id' st')
       = st'.
Proof.
  intros H.
  assert (Hc : jwks_cache st' <> JNull).
  { destruct (validate_cases w ev region user_pool_id app_client_id st)
      as [[_ [e [He _]]]|[token [_ Heq]]].
    { rewrite H in He. discriminate He. }
    rewrite Heq in H. unfold try_except in H.
    destruct (checked_claims w token _ _ _ st) as [[c|e] st1] eqn:Ec.
    2:{ destruct (reclassify_unauthorized (A := dict) e st1) as [m Hm].
        rewrite Hm in H. discriminate H. }
    injection H as -> ->.
    apply checked_claims_ok in Ec as (jwks & _ & keys & _ & Hj & _ & Hl & _).
    pose proof (key_list_not_null _ _ Hl) as Hne.
    now rewrite (get_jwks_populates w _ _ _ _ _ Hj Hne). }
  split; [exact Hc|]. intros ev' region' user_pool_id' app_client_id'.
  destruct (validate_cases w ev' region' user_pool_id' app_client_id' st')
    as [[Hst _]|[token [_ Heq]]]; [exact Hst|].
  rewrite Heq, try_except_state, checked_claims_state.
  now rewrite (get_jwks_cached w _ _ st' Hc).
Qed.

Lemma successful_call_warms_cache_witness :
  jwks_cache warm <> JNull
  /\ forall ev' region' user_pool_id' app_client_id',
       snd (validate_jwt_token test_world ev' region' user_pool_id'
              app_client_id' warm)
       = warm.
Proof.
  apply (successful_call_warms_cache test_world
           (event_of "Authorization" "Bearer valid-token-123")
           (Some "us-west-2") (Some "test-pool-id") (Some "test-client-id")
           fresh warm test_claims).
  reflexivity.
Defined.

(** Whatever body the key set URL served is in the cache for good.  When
    the cached value has no list of keys under ["keys"], a call that passes
    the header and configuration checks with a token whose header can be read
    fails with [UnauthorizedError("Token validation failed")], sends no
    request and leaves the cache as it is: so does every later call. *)
Theorem unusable_key_set_fails_verification (w : world) (ev : event)
    (region user_pool_id app_client_id : option string)
    (token r p a : string) (st : state) (kid : json) (e : exn) :
  reaches_try w ev region user_pool_id app_client_id token r p a ->
  jwks_cache st <> JNull ->
  token_kid w token = Ok kid ->
  key_list (jwks_cache st) = Raise e ->
  validate_jwt_token w ev region user_pool_id app_client_id st
  = (Raise (UnauthorizedError msg_validation_failed), st).
Proof.
  intros Hreach Hc Hk Hl.
  rewrite (validate_enters_try w _ _ _ _ _ _ _ _ st Hreach).
  unfold try_except, checked_claims, mbind.
  rewrite (get_jwks_cached w _ _ st Hc).
  unfold token_kid in Hk. unfold lift at 1.
  destruct (get_unverified_header w token) as [hdr|e']; [|discriminate Hk].
  unfold lift at 1. rewrite Hl.
  destruct (key_list_error _ _ Hl) as [[k ->]|[m ->]]; reflexivity.
Qed.

Lemma unusable_key_set_fails_verification_witness :
  let st := {| jwks_cache := JObj [("message", JStr "Forbidden")];
               requests_sent := [jwks_url "us-west-2" "test-pool"] |} in
  validate_jwt_token test_world
    (event_of "Authorization" "Bearer valid-token-123")
    (Some "us-west-2") (Some "test-pool") (Some "test-client") st
  = (Raise (UnauthorizedError msg_validation_failed), st).
Proof.
  intros st.
  apply (unusable_key_set_fails_verification test_world
           (event_of "Authorization" "Bearer valid-token-123")
           (Some "us-west-2") (Some "test-pool") (Some "test-client")
           "valid-token-123" "us-west-2" "test-pool" "test-client" st
           (JStr "test-kid") (KeyError "keys")).
  - split; [|repeat split; discriminate].
    exists "Bearer valid-token-123".
    split; [reflexivity|]. split; [discriminate|reflexivity].
  - discriminate.
  - reflexivity.
  - reflexivity.
Defined.

End CognitoEffects.

(** ** [str.split] and the shape of an authorization header *)
Module SplitFacts.
Import Py Cognito.
Local Open Scope string_scope.
#[local] Arguments String.append !s1 s2 : simpl nomatch.

Lemma append_empty (a b : string) : a ++ b = "" -> a = "" /\ b = "".
Proof. destruct a; [now split|discriminate]. Qed.

Lemma append_char (cur : string) (c : ascii) (w : string) :
  (cur ++ String c "") ++ w = cur ++ String c w.
Proof. now rewrite JsonFacts.append_assoc. Qed.

(** Lower-casing keeps white space and makes none. *)
Lemma is_space_lower_char (c : ascii) : is_space (lower_char c) = is_space c.
Proof. destruct c as [[|] [|] [|] [|] [|] [|] [|] [|]]; reflexivity. Qed.

Lemma no_space_lower (s : string) : no_space (lower s) = no_space s.
Proof.
  induction s as [|c s IH]; [reflexivity|].
  simpl. now rewrite is_space_lower_char, IH.
Qed.

(** A word is read into the run. *)
Lemma split_from_word (cur w s : string) :
  no_space w = true -> split_from cur (w ++ s) = split_from (cur ++ w) s.
Proof.
  revert cur. induction w as [|c w IH]; intros cur Hw.
  - now rewrite JsonFacts.append_nil_r.
  - simpl in Hw. apply andb_true_iff in Hw as [Hc Hw].
    apply negb_true_iff in Hc. simpl. rewrite Hc, IH by exact Hw.
    now rewrite append_char.
Qed.

(** White space before a word is dropped. *)
Lemma split_from_spaces (ws s : string) :
  all_space ws = true -> split_from "" (ws ++ s) = split_from "" s.
Proof.
  induction ws as [|c ws IH]; intros Hws; [reflexivity|].
  simpl in Hws. apply andb_true_iff in Hws as [Hc Hws].
  simpl. rewrite Hc. now apply IH.
Qed.

(** White space after a word ends it. *)
Lemma split_from_gap (cur ws s : string) :
  all_space ws = true -> ws <> "" -> cur <> "" ->
  split_from cur (ws ++ s) = cur :: split_from "" s.
Proof.
  intros Hws Hne Hcur. destruct ws as [|c ws]; [now contradiction Hne|].
  simpl in Hws. apply andb_true_iff in Hws as [Hc Hws].
  simpl. rewrite Hc, (proj2 (String.eqb_neq cur "") Hcur).
  now rewrite split_from_spaces.
Qed.

Lemma split_from_tail (cur ws : string) :
  all_space ws = true -> cur <> "" -> split_from cur ws = [cur].
Proof.
  intros Hws Hcur. destruct ws as [|c ws].
  - simpl. now rewrite (proj2 (String.eqb_neq cur "") Hcur).
  - rewrite <- (JsonFacts.append_nil_r (String c ws)).
    rewrite split_from_gap; [reflexivity|exact Hws|discriminate|exact Hcur].
Qed.

(** No word: the text is white space. *)
Lemma split_from_nil (cur s : string) :
  split_from cur s = [] -> cur = "" /\ all_space s = true.
Proof.
  revert cur. induction s as [|c s IH]; intros cur; simpl.
  - destruct (String.eqb_spec cur ""); [now split|discriminate].
  - destruct (is_space c) eqn:Hc.
    + destruct (String.eqb_spec cur "") as [->|Hne]; [|discriminate].
      intros H. apply IH in H as [_ H]. now split.
    + intros H. apply IH in H as [H _].
      apply append_empty in H as [_ H]. discriminate H.
Qed.

(** One word: white space (none when the run is under way), the rest of
    the word, white space. *)
Lemma split_from_one (cur s b : string) :
  no_space cur = true ->
  split_from cur s = [b] ->
  exists pre b' post,
    s = pre ++ b' ++ post /\ b = cur ++ b'
    /\ all_space pre = true /\ no_space b = true /\ b <> ""
    /\ all_space post = true /\ (cur <> "" -> pre = "").
Proof.
  revert cur. induction s as [|c s IH]; intros cur Hcur; simpl.
  - destruct (String.eqb_spec cur "") as [->|Hne]; [discriminate|].
    intros [= <-]. exists "", "", "".
    rewrite (JsonFacts.append_nil_r cur). now repeat split.
  - destruct (is_space c) eqn:Hc.
    + destruct (String.eqb_spec cur "") as [->|Hne].
      * intros H. apply (IH "" eq_refl) in H
          as (pre & b' & post & -> & -> & Hpre & Hb & Hbne & Hpost & _).
        exists (String c pre), b', post. simpl. rewrite Hc.
        now repeat split.
      * intros [= <- H]. apply split_from_nil in H as [_ H].
        exists "", "", (String c s). rewrite (JsonFacts.append_nil_r cur).
        simpl. rewrite Hc. now repeat split.
    + intros H. apply IH in H
        as (pre & b' & post & -> & -> & Hpre & Hb & Hbne & Hpost & Hp).
      * rewrite Hp by (intros E; apply append_empty in E as [_ E];
                       discriminate E).
        exists "", (String c b'), post. rewrite append_char in Hb, Hbne |- *.
        now repeat split.
      * clear H. induction cur as [|x cur IHc]; simpl in *.
        -- now rewrite Hc.
        -- apply andb_true_iff in Hcur as [Hx Hcur]. rewrite Hx. now apply IHc.
Qed.

(** Two words. *)
Lemma split_from_two (cur s a b : string) :
  no_space cur = true ->
  split_from cur s = [a; b] ->
  exists pre a' sep post,
    s = pre ++ a' ++ sep ++ b ++ post /\ a = cur ++ a'
    /\ all_space pre = true /\ no_space a = true
    /\ all_space sep = true /\ sep <> ""
    /\ no_space b = true /\ b <> ""
    /\ all_space post = true /\ (cur <> "" -> pre = "").
Proof.
  revert cur. induction s as [|c s IH]; intros cur Hcur; simpl.
  - destruct (String.eqb cur ""); discriminate.
  - destruct (is_space c) eqn:Hc.
    + destruct (String.eqb_spec cur "") as [->|Hne].
      * intros H. apply (IH "" eq_refl) in H
          as (pre & a' & sep & post & -> & -> & Hpre & Ha & Hsep & Hsne
              & Hb & Hbne & Hpost & _).
        exists (String c pre), a', sep, post. simpl. rewrite Hc.
        now repeat split.
      * intros [= <- H]. apply (split_from_one "" s b eq_refl) in H
          as (pre & b' & post & -> & -> & Hpre & Hb & Hbne & Hpost & _).
        exists "", "", (String c pre), post.
        rewrite (JsonFacts.append_nil_r cur). simpl. rewrite Hc.
        now repeat split.
    + assert (Hcur' : no_space (cur ++ String c "") = true).
      { clear IH. induction cur as [|x cur IHc]; simpl in *.
        - now rewrite Hc.
        - apply andb_true_iff in Hcur as [Hx Hcur]. rewrite Hx.
          now apply IHc. }
      intros H. apply (IH _ Hcur') in H
        as (pre & a' & sep & post & -> & -> & Hpre & Ha & Hsep & Hsne
            & Hb & Hbne & Hpost & Hp).
      rewrite Hp by (intros E; apply append_empty in E as [_ E];
                     discriminate E).
      exists "", (String c a'), sep, post. rewrite append_char in Ha |- *.
      now repeat split.
Qed.

(** The headers that [bearer_token] takes a token from. *)
Lemma bearer_token_shape (h token : string) :
  bearer_token h = Some token <-> bearer_shape h token.
Proof.
  unfold bearer_token, bearer_shape, split. split.
  - destruct (split_from "" h) as [|scheme [|tok [|x parts]]] eqn:Hs;
      try discriminate.
    destruct (String.eqb_spec (lower scheme) "bearer") as [Hl|Hl];
      [|discriminate].
    intros [= <-]. apply (split_from_two "" h scheme tok eq_refl) in Hs
      as (pre & a' & sep & post & -> & -> & Hpre & Ha & Hsep & Hsne
          & Hb & Hbne & Hpost & _).
    exists pre, a', sep, post. now repeat split.
  - intros (pre & scheme & sep & post & -> & Hpre & Hl & Hsep & Hsne
            & Ht & Htne & Hpost).
    assert (Hs : no_space scheme = true)
      by now rewrite <- no_space_lower, Hl.
    assert (Hne : scheme <> "") by (intros ->; discriminate Hl).
    rewrite split_from_spaces by exact Hpre.
    rewrite split_from_word by exact Hs.
    rewrite split_from_gap; [|exact Hsep|exact Hsne|exact Hne].
    rewrite split_from_word by exact Ht.
    rewrite split_from_tail; [|exact Hpost|exact Htne].
    simpl. now rewrite Hl.
Qed.

End SplitFacts.

(** ** The authorization headers [validate_jwt_token] accepts *)
Module HeaderShape.
Import Py Cognito Examples ResolverFacts VerifierFacts SplitFacts.
Local Open Scope string_scope.

(** A header of the bearer shape passes the header check: the scheme in
    any case, white space of any length between scheme and token and around
    them.  With a user pool id and an app client id, the call is the [try]
    block run on the token. *)
Theorem bearer_header_is_accepted (w : world) (ev : event)
    (region user_pool_id app_client_id : option string)
    (h token : string) (st : state) :
  find_auth_header ev = Some h ->
  bearer_shape h token ->
  effective_user_pool_id w user_pool_id <> "" ->
  effective_app_client_id w app_client_id <> "" ->
  validate_jwt_token w ev region user_pool_id app_client_id st
  = try_except
      (checked_claims w token (effective_region w region)
         (effective_user_pool_id w user_pool_id)
         (effective_app_client_id w app_client_id))
      reclassify st.
Proof.
  intros Hh Hshape Hp Ha. apply validate_enters_try.
  split; [|now repeat split].
  exists h. split; [exact Hh|]. split.
  - destruct Hshape as (pre & scheme & sep & post & -> & _ & Hl & _).
    intros E. apply append_empty in E as [_ E].
    apply append_empty in E as [-> _]. discriminate Hl.
  - now apply bearer_token_shape.
Qed.

Lemma bearer_header_is_accepted_witness :
  validate_jwt_token test_world
    (event_of "authorization" "  BEARER   valid-token-123 ")
    (Some "us-west-2") (Some "test-pool-id") (Some "test-client-id") fresh
  = try_except
      (checked_claims test_world "valid-token-123"
         (effective_region test_world (Some "us-west-2"))
         (effective_user_pool_id test_world (Some "test-pool-id"))
         (effective_app_client_id test_world (Some "test-client-id")))
      reclassify fresh.
Proof.
  apply (bearer_header_is_accepted test_world
           (event_of "authorization" "  BEARER   valid-token-123 ")
           (Some "us-west-2") (Some "test-pool-id") (Some "test-client-id")
           "  BEARER   valid-token-123 " "valid-token-123" fresh).
  - reflexivity.
  - exists "  ", "BEARER", "   ", " ".
    repeat split; try reflexivity; discriminate.
  - discriminate.
  - discriminate.
Defined.



End HeaderShape.

(** ** What [json.loads] returns *)
Module LoadsFacts.
Import Py Json.
Local Open Scope string_scope.








End LoadsFacts.

(** ** The text of a token and the lenient decoder *)
Module TokenFacts.
Import Py Codec CodecFacts.
Local Open Scope string_scope.
#[local] Arguments String.append !s1 s2 : simpl nomatch.

Lemma utf8_encode_app (a b : string) :
  utf8_encode (a ++ b) = (utf8_encode a ++ utf8_encode b)%list.
Proof.
  induction a as [|c a IH]; [reflexivity|].
  simpl. destruct (N_of_ascii c <? 128)%N; simpl; now rewrite IH.
Qed.

(** A character the decoder reads is one byte. *)
Lemma read_char_bytes (c : ascii) (s : string) :
  is_b64_char c = true ->
  utf8_encode (String c s) = byte_of_ascii c :: utf8_encode s.
Proof.
  destruct c as [[|] [|] [|] [|] [|] [|] [|] [|]];
    intros H; try discriminate H; reflexivity.
Qed.

(** The bytes of any other character are skipped, in every state of the
    loop. *)
Lemma skipped_char_bytes (c : ascii) (s : string) (q : nat) (l : N)
    (p : nat) :
  is_b64_char c = false ->
  a2b_base64 (utf8_encode (String c s)) q l p
  = a2b_base64 (utf8_encode s) q l p.
Proof.
  destruct c as [[|] [|] [|] [|] [|] [|] [|] [|]];
    intros H; try discriminate H; reflexivity.
Qed.

(** The loop reads one byte and goes on with the rest. *)
Lemma a2b_base64_cong (X Y : list byte) :
  (forall q l p, a2b_base64 X q l p = a2b_base64 Y q l p) ->
  forall b q l p, a2b_base64 (b :: X) q l p = a2b_base64 (b :: Y) q l p.
Proof.
  intros H b q l p. cbn [a2b_base64].
  destruct (Byte.eqb b pad).
  - destruct ((2 <=? q) && (4 <=? q + S p))%nat; [reflexivity|apply H].
  - destruct (a2b b) as [v|]; [|apply H].
    destruct q as [|[|[|q]]]; now rewrite H.
Qed.

Lemma a2b_base64_significant (token : string) (q : nat) (l : N) (p : nat) :
  a2b_base64 (utf8_encode token) q l p
  = a2b_base64 (utf8_encode (significant token)) q l p.
Proof.
  revert q l p. induction token as [|c token IH]; intros q l p;
    [reflexivity|].
  cbn [significant]. destruct (is_b64_char c) eqn:Hc.
  - rewrite !read_char_bytes by exact Hc. now apply a2b_base64_cong.
  - rewrite skipped_char_bytes by exact Hc. apply IH.
Qed.

(** Padding and foreign characters before the first character of the
    alphabet leave the loop where it starts. *)
Lemma no_data_char_bytes (c : ascii) (s : string) :
  in_alphabet c = false ->
  a2b_base64 (utf8_encode (String c s)) 0 0 0
  = a2b_base64 (utf8_encode s) 0 0 0.
Proof.
  destruct c as [[|] [|] [|] [|] [|] [|] [|] [|]];
    intros H; try discriminate H; reflexivity.
Qed.

Lemma b64decode_no_data (token : string) :
  Forall (fun c => in_alphabet c = false) (list_ascii_of_string token) ->
  b64decode (utf8_encode token) = Ok [].
Proof.
  unfold b64decode. induction token as [|c token IH]; [reflexivity|].
  simpl list_ascii_of_string. intros H. inversion H as [|? ? Hc Ht]; subst.
  rewrite no_data_char_bytes by exact Hc. now apply IH.
Qed.

(** *** The characters of an encoded text *)

Lemma b64encode_length (bs : list byte) :
  exists k, length (b64encode bs) = (4 * k)%nat.
Proof.
  assert (H : forall n bs, (length bs <= n)%nat ->
              exists k, length (b64encode bs) = (4 * k)%nat);
    [|now apply (H (length bs))].
  clear bs. induction n as [|n IH]; intros bs Hn.
  - destruct bs; [now exists 0%nat|simpl in Hn; lia].
  - destruct bs as [|x [|y [|z r]]];
      [now exists 0%nat|now exists 1%nat|now exists 1%nat|].
    destruct (IH r) as [k Hk]; [simpl in Hn; lia|].
    exists (S k). cbn [b64encode length]. rewrite Hk. lia.
Qed.

Lemma b64encode_nonempty (x : byte) (bs : list byte) :
  b64encode (x :: bs) <> [].
Proof. now destruct bs as [|y [|z r]]. Qed.

Lemma b2a_is_b64_char (v : N) :
  (v < 64)%N -> is_b64_char (ascii_of_byte (b2a v)) = true.
Proof.
  intros H. unfold is_b64_char, in_alphabet.
  rewrite byte_of_ascii_of_byte. now destruct (a2b_b2a v H) as [-> _].
Qed.

Lemma b64encode_chars (bs : list byte) :
  Forall (fun b => is_b64_char (ascii_of_byte b) = true) (b64encode bs).
Proof.
  assert (Hpad : is_b64_char (ascii_of_byte pad) = true) by reflexivity.
  assert (H : forall n bs, (length bs <= n)%nat ->
              Forall (fun b => is_b64_char (ascii_of_byte b) = true)
                (b64encode bs));
    [|now apply (H (length bs))].
  clear bs. induction n as [|n IH]; intros bs Hn.
  - destruct bs; [constructor|simpl in Hn; lia].
  - destruct bs as [|x [|y [|z r]]]; cbn [b64encode];
      repeat (apply List.Forall_cons;
              [first [exact Hpad
                     |apply b2a_is_b64_char;
                      first [apply sextet0_lt|apply sextet1_lt
                            |apply sextet2_lt|apply sextet3_lt
                            |apply sextet1_pad_lt|apply sextet2_pad_lt]]|]);
      try apply List.Forall_nil.
    apply IH. simpl in Hn. lia.
Qed.

(** Bytes below 0x80 decode to one character each. *)
Lemma utf8_decode_ascii (bs : list byte) (s : string) :
  Forall (fun b => (N_of_byte b < 128)%N) bs ->
  utf8_decode bs = Ok s ->
  list_ascii_of_string s = map ascii_of_byte bs.
Proof.
  intros Hbs. revert s. induction Hbs as [|b bs Hb _ IH]; intros s; simpl.
  - now intros [= <-].
  - apply N.ltb_lt in Hb. rewrite Hb.
    destruct (utf8_decode bs) as [t|e]; [|discriminate].
    intros [= <-]. simpl. rewrite (IH t eq_refl). f_equal.
    unfold N_of_byte. apply ascii_N_embedding.
Qed.

Lemma length_list_ascii_of_string (s : string) :
  length (list_ascii_of_string s) = String.length s.
Proof. induction s as [|c s IH]; simpl; [reflexivity|now rewrite IH]. Qed.

(** *** Padding *)

(** When the encoded text ends with the padding character, the text
    without it is refused, and the text followed by anything decodes as the
    text alone. *)
Lemma a2b_base64_padded (bs X : list byte) :
  b64encode bs = (X ++ [pad])%list ->
  a2b_base64 X 0 0 0 = Raise (ValueError "Incorrect padding")
  /\ forall Y, a2b_base64 (b64encode bs ++ Y) 0 0 0 = Ok bs.
Proof.
  assert (H : forall n bs X, (length bs <= n)%nat ->
              b64encode bs = (X ++ [pad])%list ->
              a2b_base64 X 0 0 0 = Raise (ValueError "Incorrect padding")
              /\ forall Y, a2b_base64 (b64encode bs ++ Y) 0 0 0 = Ok bs);
    [|now apply (H (length bs))].
  clear bs X. induction n as [|n IH]; intros bs X Hn.
  { destruct bs; [|simpl in Hn; lia]. now destruct X. }
  destruct bs as [|x [|y [|z r]]].
  - now destruct X.
  - cbn [b64encode]. intros HX.
    pose proof (first_byte x "000"%byte) as Hx.
    unfold sextet0, sextet1 in Hx.
    change (N.shiftr (N_of_byte "000") 4) with 0%N in Hx.
    rewrite N.lor_0_r in Hx.
    destruct (a2b_b2a _ (sextet0_lt x)) as [E0 P0].
    destruct (a2b_b2a _ (sextet1_pad_lt x)) as [E1 P1].
    unfold sextet0 in E0, P0.
    destruct X as [|x0 [|x1 [|x2 [|x3 X]]]]; try discriminate HX.
    2:{ injection HX as _ _ _ _ HX. now destruct X. }
    injection HX as <- <- <-. split.
    + cbn [a2b_base64]. rewrite P0, E0. cbn [a2b_base64]. rewrite P1, E1.
      reflexivity.
    + intros Y. cbn [app a2b_base64]. rewrite P0, E0. cbn [a2b_base64].
      rewrite P1, E1. cbn. now rewrite Hx, byte_of_N_of_byte.
  - cbn [b64encode]. intros HX.
    pose proof (first_byte x y) as Hx.
    pose proof (second_byte x y "000"%byte) as Hy.
    unfold sextet0, sextet1, sextet2 in Hx, Hy.
    change (N.shiftr (N_of_byte "000") 6) with 0%N in Hy.
    rewrite N.lor_0_r in Hy.
    destruct (a2b_b2a _ (sextet0_lt x)) as [E0 P0].
    destruct (a2b_b2a _ (sextet1_lt x y)) as [E1 P1].
    destruct (a2b_b2a _ (sextet2_pad_lt y)) as [E2 P2].
    unfold sextet0 in E0, P0. unfold sextet1 in E1, P1.
    destruct X as [|x0 [|x1 [|x2 [|x3 X]]]]; try discriminate HX.
    2:{ injection HX as _ _ _ _ HX. now destruct X. }
    injection HX as <- <- <-. split.
    + cbn [a2b_base64]. rewrite P0, E0. cbn [a2b_base64]. rewrite P1, E1.
      cbn [a2b_base64]. rewrite P2, E2. reflexivity.
    + intros Y. cbn [app a2b_base64]. rewrite P0, E0. cbn [a2b_base64].
      rewrite P1, E1. cbn [a2b_base64]. rewrite P2, E2. cbn.
      now rewrite Hx, Hy, !byte_of_N_of_byte.
  - cbn [b64encode]. intros HX.
    pose proof (first_byte x y) as Hx.
    pose proof (second_byte x y z) as Hy.
    pose proof (third_byte y z) as Hz.
    unfold sextet0, sextet1, sextet2, sextet3 in Hx, Hy, Hz.
    destruct (a2b_b2a _ (sextet3_lt z)) as [_ P3]. unfold sextet3 in P3.
    destruct X as [|x0 [|x1 [|x2 [|x3 X]]]]; try discriminate HX.
    { injection HX as _ _ _ HX _. rewrite HX in P3. discriminate P3. }
    injection HX as <- <- <- <- HX.
    destruct (IH r X ltac:(simpl in Hn; lia) HX) as [Hraise Hok].
    split.
    + rewrite a2b_base64_group;
        [|apply sextet0_lt|apply sextet1_lt|apply sextet2_lt|apply sextet3_lt].
      now rewrite Hraise.
    + intros Y. cbn [app]. rewrite a2b_base64_group;
        [|apply sextet0_lt|apply sextet1_lt|apply sextet2_lt|apply sextet3_lt].
      rewrite Hok. cbn [emit].
      now rewrite Hx, Hy, Hz, !byte_of_N_of_byte.
Qed.

End TokenFacts.

(** ** Properties of the pagination tokens *)
Module TokenProperties.
Import Py Codec Helpers TokenFacts.
Local Open Scope string_scope.

(** The bytes of a token are the base64 text of the JSON text. *)
Lemma encoded_bytes (j : json) (token : string) :
  encode_pagination_token j = Ok token ->
  utf8_encode token = b64encode (utf8_encode (Json.dumps j)).
Proof.
  unfold encode_pagination_token. intros H.
  destruct (CodecFacts.utf8_ascii _
              (CodecFacts.b64encode_ascii (utf8_encode (Json.dumps j))))
    as [s [Hd He]].
  rewrite Hd in H. now injection H as <-.
Qed.

(** The decoders raise nothing that the handler could not name. *)
Lemma a2b_base64_error (s : list byte) (q : nat) (l : N) (p : nat) (e : exn) :
  a2b_base64 s q l p = Raise e -> exists m, e = ValueError m.
Proof.
  revert q l p. induction s as [|ch s IH]; intros q l p; cbn [a2b_base64].
  - destruct q as [|[|q]]; [discriminate| |]; intros [= <-]; eauto.
  - destruct (Byte.eqb ch pad).
    + destruct ((2 <=? q) && (4 <=? q + S p))%nat; [discriminate|apply IH].
    + destruct (a2b ch) as [v|]; [|apply IH].
      destruct q as [|[|[|q]]]; [apply IH| | |];
        match goal with
        | |- emit _ ?r = _ -> _ =>
            destruct r as [bs|e'] eqn:E; [discriminate|];
            intros [= <-]; exact (IH _ _ _ E)
        end.
Qed.

Lemma utf8_decode_fuel (bs : list byte) :
  utf8_decode bs <> Raise (Unmodelled "fuel").
Proof.
  remember (length bs) as n eqn:Hn. revert bs Hn.
  induction n as [n IH] using lt_wf_ind. intros bs Hn.
  destruct bs as [|b r]; [discriminate|]. cbn [utf8_decode]. simpl in Hn.
  destruct (N_of_byte b <? 128)%N.
  { destruct (utf8_decode r) as [s|e] eqn:E; [discriminate|].
    simpl. intros [= ->]. apply (IH (length r)) in E; [exact E|lia|reflexivity]. }
  destruct (N_of_byte b <? 194)%N; [discriminate|].
  destruct (N_of_byte b <? 196)%N.
  { destruct r as [|b2 r']; [discriminate|]. simpl in Hn.
    destruct ((128 <=? N_of_byte b2) && (N_of_byte b2 <? 192))%N;
      [|discriminate].
    destruct (utf8_decode r') as [s|e] eqn:E; [discriminate|].
    simpl. intros [= ->].
    apply (IH (length r')) in E; [exact E|lia|reflexivity]. }
  destruct (N_of_byte b <? 245)%N; discriminate.
Qed.

(** Whatever goes wrong, [decode_pagination_token] raises [ValueError]
    with the prefix of its handler.  The one other outcome marks a text
    outside this embedding (a float, a character above U+00FF); the scanner
    never runs out of fuel. *)
Theorem decode_failure_is_value_error (token : string) (e : exn) :
  decode_pagination_token token = Raise e ->
  (exists m, e = ValueError ("Invalid pagination token: " ++ m))
  \/ (exists what, e = Unmodelled what /\ what <> "fuel").
Proof.
  unfold decode_pagination_token.
  destruct (bind (b64decode (utf8_encode token)) _) as [j|e0] eqn:E;
    [discriminate|].
  destruct e0 as [m|m|m|m|k|m|m|m|what];
    try (intros [= <-]; left; eexists; reflexivity).
  intros [= <-]. right. exists what. split; [reflexivity|]. intros ->.
  unfold b64decode in E.
  destruct (a2b_base64 _ 0 0 0) as [bs|e1] eqn:Eb.
  2:{ apply a2b_base64_error in Eb as [m ->]. discriminate E. }
  simpl in E. destruct (utf8_decode bs) as [text|e2] eqn:Eu.
  2:{ simpl in E. injection E as ->. now apply utf8_decode_fuel in Eu. }
  simpl in E. now apply JsonFacts.loads_fuel in E.
Qed.

Lemma decode_failure_is_value_error_witness :
  (exists m,
     ValueError "Invalid pagination token: Incorrect padding"
     = ValueError ("Invalid pagination token: " ++ m))
  \/ (exists what,
        ValueError "Invalid pagination token: Incorrect padding"
        = Unmodelled what /\ what <> "fuel").
Proof.
  apply (decode_failure_is_value_error "eyJpZCI6ICIxMjMifQ").
  reflexivity.
Defined.



(** Two values with the same token are the same value. *)
Theorem encode_is_injective (j1 j2 : json) (token : string) :
  wf_json j1 -> wf_json j2 ->
  encode_pagination_token j1 = Ok token ->
  encode_pagination_token j2 = Ok token ->
  j1 = j2.
Proof.
  intros H1 H2 E1 E2.
  pose proof (HelpersClaims.decode_encoded j1 token H1 (encoded_bytes _ _ E1))
    as D1.
  pose proof (HelpersClaims.decode_encoded j2 token H2 (encoded_bytes _ _ E2))
    as D2.
  rewrite D1 in D2. now injection D2.
Qed.

Lemma encode_is_injective_witness :
  JObj [("id", JStr "123")] = JObj [("id", JStr "123")].
Proof.
  apply (encode_is_injective (JObj [("id", JStr "123")])
           (JObj [("id", JStr "123")]) "eyJpZCI6ICIxMjMifQ==").
  - repeat constructor. rewrite list_elem_of_In. intros [].
  - repeat constructor. rewrite list_elem_of_In. intros [].
  - reflexivity.
  - reflexivity.
Defined.



(** A token is standard base64 text: not empty, a multiple of four
    characters long, and made of the letters, the digits, [+], [/] and the
    padding character [=] only. *)
Theorem token_is_padded_base64 (j : json) (token : string) :
  encode_pagination_token j = Ok token ->
  token <> ""
  /\ (exists k, String.length token = (4 * k)%nat)
  /\ Forall (fun c => is_b64_char c = true) (list_ascii_of_string token).
Proof.
  unfold encode_pagination_token. intros H.
  pose proof (utf8_decode_ascii _ _ (CodecFacts.b64encode_ascii _) H) as Hchars.
  split; [|split].
  - intros ->. destruct (JsonFacts.dumps_head j) as [c [t [Hj _]]].
    rewrite Hj in Hchars. simpl in Hchars.
    destruct (N_of_ascii c <? 128)%N;
      now apply eq_sym, map_eq_nil, b64encode_nonempty in Hchars.
  - destruct (b64encode_length (utf8_encode (Json.dumps j))) as [k Hk].
    exists k.
    now rewrite <- length_list_ascii_of_string, Hchars, length_map.
  - rewrite Hchars. apply Forall_map. apply b64encode_chars.
Qed.

Lemma token_is_padded_base64_witness :
  "eyJpZCI6ICIxMjMifQ==" <> ""
  /\ (exists k, String.length "eyJpZCI6ICIxMjMifQ==" = (4 * k)%nat)
  /\ Forall (fun c => is_b64_char c = true)
       (list_ascii_of_string "eyJpZCI6ICIxMjMifQ==").
Proof.
  apply (token_is_padded_base64 (JObj [("id", JStr "123")])).
  reflexivity.
Defined.

(** The decoder drops every character that is neither of the base64
    alphabet nor the padding character: two tokens with the same characters
    of these kinds decode alike, be it to a value or to an error. *)
Theorem decode_skips_foreign_characters (token1 token2 : string) :
  significant token1 = significant token2 ->
  decode_pagination_token token1 = decode_pagination_token token2.
Proof.
  intros H. unfold decode_pagination_token, b64decode.
  rewrite (a2b_base64_significant token1), (a2b_base64_significant token2).
  now rewrite H.
Qed.

Lemma decode_skips_foreign_characters_witness :
  decode_pagination_token "M_Q =-=" = decode_pagination_token "MQ==".
Proof.
  apply (decode_skips_foreign_characters "M_Q =-=" "MQ==").
  reflexivity.
Defined.

(** A token with no character of the base64 alphabet, the empty token
    included, decodes to no bytes at all and is refused by the JSON
    decoder. *)
Theorem token_without_data_is_rejected (token : string) :
  Forall (fun c => in_alphabet c = false) (list_ascii_of_string token) ->
  exists m,
    decode_pagination_token token
    = Raise (ValueError ("Invalid pagination token: " ++ m)).
Proof.
  intros H. unfold decode_pagination_token.
  rewrite (b64decode_no_data token H). eexists. reflexivity.
Qed.

Lemma token_without_data_is_rejected_witness :
  exists m,
    decode_pagination_token " =="
    = Raise (ValueError ("Invalid pagination token: " ++ m)).
Proof.
  apply (token_without_data_is_rejected " ==").
  repeat constructor.
Defined.

(** A token that ends with the padding character is refused once that
    character is cut off, with the decoder's ["Incorrect padding"]. *)
Theorem stripped_padding_is_rejected (j : json) (body : string) :
  encode_pagination_token j = Ok (body ++ "=") ->
  decode_pagination_token body
  = Raise (ValueError "Invalid pagination token: Incorrect padding").
Proof.
  intros H. apply encoded_bytes in H. rewrite utf8_encode_app in H.
  apply eq_sym, a2b_base64_padded in H as [H _].
  unfold decode_pagination_token, b64decode. now rewrite H.
Qed.

Lemma stripped_padding_is_rejected_witness :
  decode_pagination_token "eyJpZCI6ICIxMjMifQ="
  = Raise (ValueError "Invalid pagination token: Incorrect padding").
Proof.
  apply (stripped_padding_is_rejected (JObj [("id", JStr "123")])
           "eyJpZCI6ICIxMjMifQ=").
  reflexivity.
Defined.

(** Once the padding has completed the last group the decoder stops
    reading: whatever follows a token that ends with the padding character
    is ignored, and the token still decodes to the value it was made from. *)
Theorem decode_ignores_data_after_padding (j : json) (body extra : string) :
  wf_json j ->
  encode_pagination_token j = Ok (body ++ "=") ->
  decode_pagination_token ((body ++ "=") ++ extra) = Ok j.
Proof.
  intros Hwf H. apply encoded_bytes in H. pose proof H as Hb.
  rewrite utf8_encode_app in Hb.
  apply eq_sym, a2b_base64_padded in Hb as [_ Hb].
  unfold decode_pagination_token, b64decode.
  rewrite utf8_encode_app, H, Hb. simpl bind.
  rewrite CodecFacts.utf8_decode_encode. simpl bind.
  now rewrite JsonFacts.loads_dumps.
Qed.

Lemma decode_ignores_data_after_padding_witness :
  decode_pagination_token (("eyJpZCI6ICIxMjMifQ=" ++ "=") ++ "anything")
  = Ok (JObj [("id", JStr "123")]).
Proof.
  apply (decode_ignores_data_after_padding (JObj [("id", JStr "123")])
           "eyJpZCI6ICIxMjMifQ=" "anything").
  - repeat constructor. rewrite list_elem_of_In. intros [].
  - reflexivity.
Defined.

End TokenProperties.
